(** * terrawrap: a shallow embedding of [src/terrawrap.ts]

    The program is a Deno script.  It finds the working directory from the
    command line, walks up the directory tree looking for
    [wrapper-config.yml] / [wrapper-config.yaml], validates the parsed
    document, picks an execution role by prefix, renders [00_generated.tf]
    and runs [terraform] between a write hook and a cleanup hook.

    Conventions of the embedding:
    - a JavaScript string is a [string]; one [ascii] stands for one code
      unit, so the model covers the strings whose code units are below 256;
    - a value produced by the YAML parser is a [JsVal];
    - paths are POSIX paths, as [path/mod.ts] takes them on every system but
      Windows;
    - the operating system is a record of oracles ([World]); every call the
      script makes is recorded as an [Event] in the trace of the computation;
    - [Deno.exit] ends the computation at once ([Exit]); a thrown error
      ([Throw]) unwinds through [try]/[finally]. *)

From Stdlib Require Import String Ascii List ZArith Lia Bool Arith.
From Equations Require Import Equations.
Import ListNotations.
Local Open Scope string_scope.

(* ===================================================================== *)
(** * JavaScript values and string operations *)
(* ===================================================================== *)

Module Js.

(** The line feed, as it appears in the template literals of the source. *)
Definition LF : ascii := ascii_of_nat 10.
Definition CR : ascii := ascii_of_nat 13.
Definition nl : string := String LF EmptyString.

(** [s.startsWith(p)] for a string [p]. *)
Definition startsWith (s p : string) : bool := String.prefix p s.

(** [s.slice(n)] for [0 <= n]: the code units from index [n] on. *)
Definition slice (n : nat) (s : string) : string :=
  substring n (String.length s - n) s.

(** What [parseYml] can return, and [undefined] for what is absent.  A number
    is kept by the text that [String(n)] gives it, which is all that this
    program ever does with a number. *)
#[warnings="-register-all"]
Inductive JsVal : Type :=
| JUndefined
| JNull
| JBool (b : bool)
| JNum (text : string)
| JStr (s : string)
| JArr (items : list JsVal)
| JObj (fields : list (string * JsVal)).

Fixpoint lookup (k : string) (fields : list (string * JsVal)) : option JsVal :=
  match fields with
  | [] => None
  | (k', v) :: rest => if String.eqb k k' then Some v else lookup k rest
  end.

(** [v?.k]: [undefined] on [null] and [undefined], and the property
    otherwise.  None of the property names the script reads exists on a
    primitive or on an array, so those give [undefined] too. *)
Definition opt_member (v : JsVal) (k : string) : JsVal :=
  match v with
  | JObj fields =>
      match lookup k fields with Some x => x | None => JUndefined end
  | _ => JUndefined
  end.

(** [v.k]: as [v?.k], but a [TypeError] ([None]) on [null] and
    [undefined]. *)
Definition member (v : JsVal) (k : string) : option JsVal :=
  match v with
  | JUndefined | JNull => None
  | _ => Some (opt_member v k)
  end.

(** The abstract operation [ToString], used by [startsWith] on its argument
    and by template literals. *)
Fixpoint to_string (v : JsVal) : string :=
  match v with
  | JUndefined => "undefined"
  | JNull => "null"
  | JBool true => "true"
  | JBool false => "false"
  | JNum text => text
  | JStr s => s
  | JArr items =>
      let elt x :=
        match x with
        | JUndefined | JNull => ""
        | _ => to_string x
        end in
      (fix join_items (l : list JsVal) : string :=
         match l with
         | [] => ""
         | [x] => elt x
         | x :: rest => elt x ++ "," ++ join_items rest
         end) items
  | JObj _ => "[object Object]"
  end.

(** [Array.isArray]. *)
Definition isArray (v : JsVal) : bool :=
  match v with JArr _ => true | _ => false end.

End Js.

(* ===================================================================== *)
(** * The POSIX [path] module of the Deno standard library

    [path.dirname] follows the library's loop step by step.  [normalize]
    (used by [path.join] and [path.resolve]) is given by what the library's
    character loop computes on the segments between separators. *)
(* ===================================================================== *)

Module Path.

Definition sep : ascii := "/"%char.

Definition isAbsolute (p : string) : bool :=
  match p with
  | String c _ => Ascii.eqb c sep
  | EmptyString => false
  end.

Fixpoint last_char (p : string) : option ascii :=
  match p with
  | EmptyString => None
  | String c EmptyString => Some c
  | String _ rest => last_char rest
  end.

Definition trailingSeparator (p : string) : bool :=
  match last_char p with
  | Some c => Ascii.eqb c sep
  | None => false
  end.

(** The segments of a path, separators removed. *)
Fixpoint split (p : string) : list string :=
  match p with
  | EmptyString => [EmptyString]
  | String c rest =>
      if Ascii.eqb c sep then EmptyString :: split rest
      else match split rest with
           | seg :: segs => String c seg :: segs
           | [] => [String c EmptyString]
           end
  end.

(** [normalizeString]: empty segments and [.] vanish, [..] removes the
    segment before it; above the root [..] is kept only when
    [allowAboveRoot].  [acc] is the result so far, last segment first. *)
Fixpoint normalizeSegments (allowAboveRoot : bool) (segs acc : list string)
  : list string :=
  match segs with
  | [] => rev acc
  | s :: rest =>
      if String.eqb s "" then normalizeSegments allowAboveRoot rest acc
      else if String.eqb s "." then normalizeSegments allowAboveRoot rest acc
      else if String.eqb s ".." then
        match acc with
        | top :: acc' =>
            if String.eqb top ".." then
              normalizeSegments allowAboveRoot rest
                (if allowAboveRoot then ".." :: acc else acc)
            else normalizeSegments allowAboveRoot rest acc'
        | [] =>
            normalizeSegments allowAboveRoot rest
              (if allowAboveRoot then [".."] else [])
        end
      else normalizeSegments allowAboveRoot rest (s :: acc)
  end.

Definition normalizeString (p : string) (allowAboveRoot : bool) : string :=
  String.concat "/" (normalizeSegments allowAboveRoot (split p) []).

Definition normalize (p : string) : string :=
  if String.eqb p "" then "."
  else
    let absolute := isAbsolute p in
    let p1 := normalizeString p (negb absolute) in
    let p2 := if String.eqb p1 "" && negb absolute then "." else p1 in
    let p3 :=
      if negb (String.eqb p2 "") && trailingSeparator p then p2 ++ "/"
      else p2 in
    if absolute then "/" ++ p3 else p3.

(** [path.join(a, b)]. *)
Definition join (a b : string) : string :=
  let joined :=
    if String.eqb a "" then (if String.eqb b "" then None else Some b)
    else if String.eqb b "" then Some a
    else Some (a ++ "/" ++ b) in
  match joined with
  | None => "."
  | Some j => normalize j
  end.

(** The loop of [path.dirname]: [chars] are the code units of the path from
    index [i] down to index [0]; the loop stops below index [1]. *)
Fixpoint dirnameEnd (chars : list ascii) (i : nat) (matchedSlash : bool)
  : option nat :=
  match chars with
  | [] => None
  | c :: rest =>
      if (i <? 1)%nat then None
      else if Ascii.eqb c sep then
        if matchedSlash then dirnameEnd rest (i - 1) true
        else Some i
      else dirnameEnd rest (i - 1) false
  end.

Definition dirname (p : string) : string :=
  if (String.length p =? 0)%nat then "."
  else
    let hasRoot := isAbsolute p in
    match dirnameEnd (rev (list_ascii_of_string p)) (String.length p - 1) true with
    | None => if hasRoot then "/" else "."
    | Some e =>
        if hasRoot && (e =? 1)%nat then "//"
        else substring 0 e p
    end.

(** [path.resolve(p)] in a process whose current directory is [cwd]. *)
Definition resolve (cwd p : string) : string :=
  let full :=
    if String.eqb p "" then cwd
    else if isAbsolute p then p
    else cwd ++ "/" ++ p in
  "/" ++ normalizeString full false.

(** *** The upward walk ends

    [dirname] either returns its argument or a path that is smaller in the
    measure below; this is what makes the loop of
    [allPossibleConfigLocation] a total function. *)

Definition dirMeasure (p : string) : nat :=
  if String.eqb p "." then 0 else 2 * String.length p + 1.

Lemma dirnameEnd_bounds chars :
  forall i matchedSlash e,
    dirnameEnd chars i matchedSlash = Some e ->
    1 <= e /\ e <= i /\ (matchedSlash = true -> e < i).
Proof.
  induction chars as [|c rest IH]; intros i m e; simpl; [discriminate|].
  destruct (Nat.ltb_spec i 1) as [Hlt|Hge]; [discriminate|].
  destruct (Ascii.eqb c sep).
  - destruct m.
    + intros H. apply IH in H. destruct H as (H1 & H2 & H3).
      specialize (H3 eq_refl). lia.
    + intros H. injection H as <-. repeat split; (lia || discriminate).
  - intros H. apply IH in H. destruct H as (H1 & H2 & _). lia.
Qed.

Lemma length_substring_0 p : forall e,
  e <= String.length p -> String.length (substring 0 e p) = e.
Proof.
  induction p as [|c p IH]; intros [|e]; simpl; intros H; try lia.
  rewrite IH; lia.
Qed.

Lemma dirMeasure_le p : dirMeasure p <= 2 * String.length p + 1.
Proof. unfold dirMeasure. destruct (String.eqb p "."); lia. Qed.

Lemma dirMeasure_not_dot p :
  p <> "." -> dirMeasure p = 2 * String.length p + 1.
Proof.
  unfold dirMeasure. intros H.
  destruct (String.eqb_spec p "."); [contradiction|reflexivity].
Qed.

Lemma dirname_decreases p :
  dirname p <> p -> dirMeasure (dirname p) < dirMeasure p.
Proof.
  unfold dirname.
  destruct (Nat.eqb_spec (String.length p) 0) as [H0|H0].
  - destruct p; [|discriminate]. intros _. cbn. lia.
  - destruct (dirnameEnd (rev (list_ascii_of_string p)) (String.length p - 1) true)
      as [e|] eqn:He.
    + apply dirnameEnd_bounds in He. destruct He as (H1 & H2 & H3).
      specialize (H3 eq_refl). intros _.
      assert (Hp : p <> ".") by (intros ->; simpl in *; lia).
      rewrite (dirMeasure_not_dot p Hp).
      destruct (isAbsolute p && (e =? 1)%nat).
      * cbn. lia.
      * pose proof (dirMeasure_le (substring 0 e p)) as Hle.
        rewrite length_substring_0 in Hle by lia. lia.
    + destruct (isAbsolute p) eqn:Ha; intros Hne.
      * assert (Hp : p <> ".") by (intros ->; discriminate).
        rewrite (dirMeasure_not_dot p Hp).
        destruct p as [|c [|c' p]]; try discriminate.
        -- simpl in Ha. apply Ascii.eqb_eq in Ha. subst c. contradiction.
        -- cbn. lia.
      * rewrite (dirMeasure_not_dot p) by congruence. cbn. lia.
Qed.

End Path.

(* ===================================================================== *)
(** * The script *)
(* ===================================================================== *)

Module Terrawrap.
Import Js.

(** ** The process and its environment *)

(** A thrown value: whether it is an instance of [Deno.errors.NotFound], and
    the text that a template literal gives it. *)
Record JsError : Type := mkError {
  isNotFound : bool;
  errorText : string
}.

(** The result of [Deno.run(...).status()]. *)
Record ProcessStatus : Type := mkStatus {
  code : Z;
  signal : option Z
}.

(** The operating system as the script sees it.  Each oracle is asked at
    most once per path or command in a run. *)
Record World : Type := mkWorld {
  args : list string;                            (* Deno.args *)
  cwd : string;                                  (* Deno.cwd() *)
  env : string -> option string;                 (* Deno.env.get *)
  readTextFile : string -> JsError + string;     (* Deno.readTextFile *)
  parseYml : string -> string + JsVal;           (* parse; a YAMLError by its text *)
  writeTextFile : string -> string -> option JsError;
  remove : string -> option JsError;             (* Deno.remove *)
  run : list string -> JsError + ProcessStatus   (* Deno.run({cmd}).status() *)
}.

(** What the script does to the outside, in order. *)
Inductive Event : Type :=
| ReadTextFile (file : string)
| ConsoleError (msg : string)
| ConsoleLog (msg : string)
| WriteTextFile (file content : string)
| Remove (file : string)
| Run (cmd : list string).

(** How a computation ends. *)
Inductive Res (A : Type) : Type :=
| Ret (a : A)
| Throw (e : JsError)
| Exit (status : Z).
Arguments Ret {A} a.
Arguments Throw {A} e.
Arguments Exit {A} status.

(** A computation: the events it performed and how it ended. *)
Definition IO (A : Type) : Type := (list Event * Res A)%type.

Definition ret {A} (a : A) : IO A := ([], Ret a).

Definition bind {A B} (m : IO A) (f : A -> IO B) : IO B :=
  match m with
  | (t1, Ret a) => let (t2, r) := f a in ((t1 ++ t2)%list, r)
  | (t1, Throw e) => (t1, Throw e)
  | (t1, Exit c) => (t1, Exit c)
  end.

Notation "x <- m ;; k" := (bind m (fun x => k))
  (at level 61, m at next level, right associativity).
Notation "m ;; k" := (bind m (fun _ => k))
  (at level 61, right associativity).

Definition emit (e : Event) : IO unit := ([e], Ret tt).
Definition throw {A} (e : JsError) : IO A := ([], Throw e).
Definition deno_exit {A} (c : Z) : IO A := ([], Exit c).

Definition trace {A} (m : IO A) : list Event := fst m.
Definition result {A} (m : IO A) : Res A := snd m.

(** [try { body } finally { fin }].  [Deno.exit] inside [body] ends the
    process without running [fin]; otherwise [fin] runs, and what it throws
    replaces the outcome of [body]. *)
Definition try_finally {A} (body : IO A) (fin : IO unit) : IO A :=
  match body with
  | (t1, Exit c) => (t1, Exit c)
  | (t1, r1) =>
      let (t2, r2) := fin in
      ((t1 ++ t2)%list,
       match r2 with
       | Ret _ => r1
       | Throw e => Throw e
       | Exit c => Exit c
       end)
  end.

(** A hook that may be absent: [if (h) await h()]. *)
Definition call_hook (h : option (IO unit)) : IO unit :=
  match h with
  | Some f => f
  | None => ret tt
  end.

Definition envIs (w : World) (name value : string) : bool :=
  match env w name with
  | Some v => String.eqb v value
  | None => false
  end.

(** ** Lines 24-35 *)

Definition panic {A} (msg : string) : IO A :=
  emit (ConsoleError msg) ;; deno_exit 1%Z.

Definition log (w : World) (msg : string) : IO unit :=
  if envIs w "TERRAWRAP_LOG" "true"
  then emit (ConsoleLog ("[terrawrap]: " ++ msg))
  else ret tt.

Definition isValidString (s : JsVal) : bool :=
  match s with
  | JStr s => negb (String.length s =? 0)%nat
  | _ => false
  end.

(** ** Lines 37-48: the working directory *)

(** [.] in a regular expression without the [s] flag: any code unit except a
    line terminator.  The two other line terminators of JavaScript, U+2028
    and U+2029, are not code units of the model. *)
Definition isLineTerminator (c : ascii) : bool :=
  Ascii.eqb c LF || Ascii.eqb c CR.

Fixpoint noLineTerminator (s : string) : bool :=
  match s with
  | EmptyString => true
  | String c rest => negb (isLineTerminator c) && noLineTerminator rest
  end.

(** The result of [arg.match(chdirRe)] is modelled by [option (option
    string)]: [None] is [null]; [Some g] is a match whose group 2 is [g]
    ([None] when the group did not take part). *)

(** [($|=(.*$))] at the start of [t].  Without the [m] flag [$] holds at
    the end of the input only. *)
Definition chdirTail (t : string) : option (option string) :=
  match t with
  | EmptyString => Some None
  | String c v =>
      if Ascii.eqb c "="%char && noLineTerminator v then Some (Some v)
      else None
  end.

(** [-chdir($|=(.*$))] at the start of [s]. *)
Definition chdirAt (s : string) : option (option string) :=
  if String.prefix "-chdir" s then chdirTail (slice 6 s) else None.

(** [-?-chdir($|=(.*$))] at the start of [s]: [-?] first takes a dash and
    gives it back when the rest fails. *)
Definition chdirHere (s : string) : option (option string) :=
  match s with
  | String c s' =>
      if Ascii.eqb c "-"%char then
        match chdirAt s' with
        | Some g => Some g
        | None => chdirAt s
        end
      else chdirAt s
  | EmptyString => chdirAt s
  end.

(** [s.match(chdirRe)]: the leftmost start position that matches. *)
Fixpoint chdirMatch (s : string) : option (option string) :=
  match chdirHere s with
  | Some g => Some g
  | None =>
      match s with
      | String _ rest => chdirMatch rest
      | EmptyString => None
      end
  end.

(** The [for] loop over [Deno.args]; [argv] is what is left of the
    arguments from index [i] on. *)
Fixpoint chdirLoop (argv : list string) (cwd : option string)
  : IO (option string) :=
  match argv with
  | [] => ret cwd
  | arg :: rest =>
      match chdirMatch arg with
      | None => chdirLoop rest cwd
      | Some group2 =>
          match cwd with
          | Some _ => panic "Invalid multiple -chdir option"
          | None =>
              match group2 with
              | Some v =>
                  if isValidString (JStr v) then chdirLoop rest (Some v)
                  else panic "Invalid -chdir option"
              | None =>
                  match rest with
                  | v :: rest' =>
                      if isValidString (JStr v) then chdirLoop rest' (Some v)
                      else panic "Invalid -chdir option"
                  | [] => panic "Invalid -chdir option"
                  end
              end
          end
      end
  end.

(** The initialiser of the constant [workingDir]. *)
Definition workingDirInit (w : World) : IO string :=
  chdir <- chdirLoop (args w) None ;;
  ret (Path.resolve (cwd w)
         (match chdir with Some v => v | None => cwd w end)).

(** ** Lines 50-61: the candidate files

    The generator has no effect of its own, so the sequence it yields is
    given as a list; [dir] starts as [workingDir]. *)

Definition inspect {A} (a : A) : {b : A | a = b} := exist _ a eq_refl.

Equations? allPossibleConfigLocation (dir : string) : list string
  by wf (Path.dirMeasure dir) lt :=
  allPossibleConfigLocation dir
    with inspect (String.eqb (Path.dirname dir) dir) := {
    | exist _ true _ =>
        [Path.join dir "wrapper-config.yml"; Path.join dir "wrapper-config.yaml"]
    | exist _ false Hnew =>
        Path.join dir "wrapper-config.yml"
          :: Path.join dir "wrapper-config.yaml"
          :: allPossibleConfigLocation (Path.dirname dir) }.
Proof.
  apply Path.dirname_decreases. apply String.eqb_neq. exact Hnew.
Qed.

(** ** Lines 17-22 and 63-101: loading the configuration *)

Record Config : Type := mkConfig {
  file : string;
  workingDir : string;
  key : string;
  config : JsVal
}.

Definition dq : string := String (ascii_of_nat 34) EmptyString.

Definition invalid (field : string) : string :=
  "Invalid " ++ dq ++ field ++ dq.

(** The [errors] array after the five checks. *)
Definition validationErrors (parsed : JsVal) : list string :=
  let s3_backend := opt_member parsed "s3_backend" in
  ((if negb (isValidString (opt_member s3_backend "role_arn"))
    then [invalid ".s3_backend.role_arn"] else [])
   ++ (if negb (isValidString (opt_member s3_backend "region"))
       then [invalid ".s3_backend.region"] else [])
   ++ (if negb (isValidString (opt_member s3_backend "bucket"))
       then [invalid ".s3_backend.bucket"] else [])
   ++ (if negb (isValidString (opt_member s3_backend "dynamodb_table"))
       then [invalid ".s3_backend.dynamodb_table"] else [])
   ++ (if negb (isArray (opt_member parsed "execution"))
       then [invalid ".execution"] else []))%list.

(** The [try] block: the parsed document, or the value that [catch]
    receives.  A [YAMLError] is not a [Deno.errors.NotFound]. *)
Definition tryReadParse (w : World) (configFile : string) : JsError + JsVal :=
  match readTextFile w configFile with
  | inl e => inl e
  | inr text =>
      match parseYml w text with
      | inl yamlError => inl (mkError false yamlError)
      | inr parsed => inr parsed
      end
  end.

(** The [for] loop of [loadConfig] over the candidates that are left. *)
Fixpoint loadConfigFrom (w : World) (workingDir : string)
    (candidates : list string) : IO (option Config) :=
  match candidates with
  | [] => ret None
  | configFile :: rest =>
      emit (ReadTextFile configFile) ;;
      match tryReadParse w configFile with
      | inl e =>
          if isNotFound e then loadConfigFrom w workingDir rest
          else panic ("File: " ++ configFile ++ nl ++ errorText e)
      | inr parsed =>
          let errors := validationErrors parsed in
          (if (0 <? List.length errors)%nat
           then panic ("Config error: " ++ configFile ++ nl
                         ++ String.concat nl errors)
           else ret tt) ;;
          ret (Some
                 {| file := configFile;
                    workingDir := workingDir;
                    key := slice (String.length (Path.dirname configFile) + 1)
                             workingDir;
                    config := parsed |})
      end
  end.

Definition loadConfig (w : World) (workingDir : string) : IO (option Config) :=
  loadConfigFrom w workingDir (allPossibleConfigLocation workingDir).

(** ** Lines 103-118: the subprocess runner *)

Definition deno_run (w : World) (cmd : list string) : IO ProcessStatus :=
  emit (Run cmd) ;;
  match run w cmd with
  | inl e => throw e
  | inr status => ret status
  end.

(** The [try] block of [terraform]. *)
Definition terraformBody (w : World) (before : option (IO unit)) : IO Z :=
  call_hook before ;;
  if envIs w "TERRAWRAP_NO_TERRAFORM" "true" then ret 0%Z
  else
    status <- deno_run w ("terraform" :: args w) ;;
    ret (match signal status with
         | None => code status
         | Some _ => 1%Z
         end).

Definition terraform (w : World) (before after : option (IO unit)) : IO Z :=
  try_finally (terraformBody w before) (call_hook after).

(** ** Lines 137-147: the execution role *)

(** [config.key.startsWith(o?.prefix!)]: the argument goes through
    [ToString]. *)
Definition prefixMatches (key : string) (o : JsVal) : bool :=
  startsWith key (to_string (opt_member o "prefix")).

(** The [for] loop over [config.config.execution]; [executionRole] is the
    variable of that name. *)
Fixpoint executionRoleLoop (key : string) (execution : list JsVal)
    (executionRole : JsVal) : JsVal :=
  match execution with
  | [] => executionRole
  | o :: rest =>
      if prefixMatches key o then
        let executionRole := opt_member o "aws_execution_role" in
        if isValidString executionRole then executionRole
        else executionRoleLoop key rest executionRole
      else executionRoleLoop key rest executionRole
  end.

Definition typeError : JsError := mkError false "TypeError".

(** [v.k] as a computation. *)
Definition get (v : JsVal) (k : string) : IO JsVal :=
  match member v k with
  | Some x => ret x
  | None => throw typeError
  end.

(** [for (const o of v)] needs an array here; validation has made sure of
    it. *)
Definition iterate (v : JsVal) : IO (list JsVal) :=
  match v with
  | JArr items => ret items
  | _ => throw typeError
  end.

Definition executionRole (config : Config) : IO JsVal :=
  execution <- get (Terrawrap.config config) "execution" ;;
  items <- iterate execution ;;
  let executionRole := executionRoleLoop (key config) items (JStr "") in
  (if negb (isValidString executionRole)
   then panic ("No execution role is found in " ++ file config
                 ++ " for key " ++ key config)
   else ret tt) ;;
  ret executionRole.

(** ** Lines 151-180: the generated file *)

Definition generatedFile (config : Config) : string :=
  Path.join (workingDir config) "00_generated.tf".

(** The template literal, with the six interpolated values. *)
Definition generatedContent
    (role_arn region bucket dynamodb_table : JsVal) (key : string)
    (executionRole : JsVal) : string :=
  "# THIS FILE IS GENERATED, DO NOT EDIT, DO NOT COMMIT" ++ nl
  ++ nl
  ++ "terraform {" ++ nl
  ++ "  backend " ++ dq ++ "s3" ++ dq ++ " {" ++ nl
  ++ "    role_arn       = " ++ dq ++ to_string role_arn ++ dq ++ nl
  ++ "    region         = " ++ dq ++ to_string region ++ dq ++ nl
  ++ "    bucket         = " ++ dq ++ to_string bucket ++ dq ++ nl
  ++ "    dynamodb_table = " ++ dq ++ to_string dynamodb_table ++ dq ++ nl
  ++ "    key            = " ++ dq ++ key ++ dq ++ nl
  ++ "  }" ++ nl
  ++ "}" ++ nl
  ++ nl
  ++ "locals {" ++ nl
  ++ "  generated = {" ++ nl
  ++ "    state_key          = " ++ dq ++ key ++ dq ++ nl
  ++ "    aws_execution_role = " ++ dq ++ to_string executionRole ++ dq ++ nl
  ++ "    remote_state = {" ++ nl
  ++ "      backend = " ++ dq ++ "s3" ++ dq ++ nl
  ++ "      config = {" ++ nl
  ++ "        role_arn       = " ++ dq ++ to_string role_arn ++ dq ++ nl
  ++ "        region         = " ++ dq ++ to_string region ++ dq ++ nl
  ++ "        bucket         = " ++ dq ++ to_string bucket ++ dq ++ nl
  ++ "        dynamodb_table = " ++ dq ++ to_string dynamodb_table ++ dq ++ nl
  ++ "      }" ++ nl
  ++ "    }" ++ nl
  ++ "  }" ++ nl
  ++ "}" ++ nl.

(** [backend] is [config.config.s3_backend]; the template reads its four
    fields. *)
Definition renderContent (config : Config) (executionRole : JsVal) : IO string :=
  backend <- get (Terrawrap.config config) "s3_backend" ;;
  role_arn <- get backend "role_arn" ;;
  region <- get backend "region" ;;
  bucket <- get backend "bucket" ;;
  dynamodb_table <- get backend "dynamodb_table" ;;
  ret (generatedContent role_arn region bucket dynamodb_table (key config)
         executionRole).

(** ** Lines 184-193: the two hooks *)

Definition writeHook (w : World) (file content : string) : IO unit :=
  emit (WriteTextFile file content) ;;
  match writeTextFile w file content with
  | Some e => throw e
  | None => ret tt
  end.

Definition cleanupHook (w : World) (file : string) : IO unit :=
  if negb (envIs w "TERRAWRAP_NO_CLEANUP" "true") then
    emit (Remove file) ;;
    match remove w file with
    | Some e => throw e
    | None => ret tt
    end
  else ret tt.

(** [Deno.exit(await terraform(before, after))]. *)
Definition exitWithTerraform (w : World) (before after : option (IO unit))
  : IO unit :=
  status <- terraform w before after ;;
  deno_exit status.

(** ** Lines 120-193: the script from [loadConfig] on, and the whole script *)

Definition withConfig (w : World) (config : Config) : IO unit :=
  log w ("Config: " ++ file config) ;;
  log w ("Working directory: " ++ workingDir config) ;;
  log w ("Key: " ++ key config) ;;
  (if negb (isValidString (JStr (key config)))
   then panic ("Working directory must be in subdirectory of config file "
                 ++ file config)
   else ret tt) ;;
  executionRole <- executionRole config ;;
  log w ("Execution Role: " ++ to_string executionRole) ;;
  generatedContent <- renderContent config executionRole ;;
  log w ("zz_generated.tf:" ++ nl ++ generatedContent) ;;
  exitWithTerraform w
    (Some (writeHook w (generatedFile config) generatedContent))
    (Some (cleanupHook w (generatedFile config))).

Definition main (w : World) : IO unit :=
  workingDir <- workingDirInit w ;;
  config <- loadConfig w workingDir ;;
  match config with
  | None =>
      log w "No config found" ;;
      exitWithTerraform w None None
  | Some config => withConfig w config
  end.

End Terrawrap.

(* ===================================================================== *)
(** * Concrete documents and worlds *)
(* ===================================================================== *)

Module Examples.
Import Js Terrawrap.

Definition notFound : JsError :=
  mkError true "NotFound: No such file or directory (os error 2)".

Definition permissionDenied : JsError :=
  mkError false "PermissionDenied: Permission denied (os error 13)".

Definition s3_backend : JsVal :=
  JObj [("role_arn", JStr "arn:aws:iam::111:role/state");
        ("region", JStr "eu-west-1");
        ("bucket", JStr "tfstate");
        ("dynamodb_table", JStr "tflock")].

Definition rule (prefix role : string) : JsVal :=
  JObj [("prefix", JStr prefix); ("aws_execution_role", JStr role)].

Definition document (rules : list JsVal) : JsVal :=
  JObj [("s3_backend", s3_backend); ("execution", JArr rules)].

Fixpoint assoc {A} (k : string) (l : list (string * A)) : option A :=
  match l with
  | [] => None
  | (k', v) :: rest => if String.eqb k k' then Some v else assoc k rest
  end.

(** A world given by its arguments, current directory, environment, files
    (path and what reading it gives; reading any other path is [NotFound]),
    documents (text and what it parses to; any other text is a syntax
    error), and the status of the subprocess.  Writing and removing
    succeed. *)
Definition world (argv : list string) (dir : string)
    (vars : list (string * string))
    (files : list (string * (JsError + string)))
    (docs : list (string * JsVal)) (status : ProcessStatus) : World :=
  {| args := argv;
     cwd := dir;
     env := fun name => assoc name vars;
     readTextFile := fun f =>
       match assoc f files with
       | Some r => r
       | None => inl notFound
       end;
     parseYml := fun text =>
       match assoc text docs with
       | Some d => inr d
       | None => inl "YAMLError: cannot parse"
       end;
     writeTextFile := fun _ _ => None;
     remove := fun _ => None;
     run := fun _ => inr status |}.

(** A valid configuration in the root directory; the process runs in
    [/a/b]. *)
Definition rootWorld : World :=
  world ["plan"] "/a/b" []
    [("/wrapper-config.yml", inr "root.yml")]
    [("root.yml", document [rule "a" "arn:aws:iam::111:role/x"])]
    (mkStatus 0 None).

(** The scenario of the specification: [-chdir=/tmp/proj/sub] and a
    configuration in [/tmp/proj]. *)
Definition projWorld : World :=
  world ["plan"; "-chdir=/tmp/proj/sub"] "/home/u" []
    [("/tmp/proj/wrapper-config.yml", inr "proj.yml")]
    [("proj.yml", document [rule "sub" "arn:aws:iam::111:role/x"])]
    (mkStatus 0 None).

(** In [/srv/app]: [wrapper-config.yml] cannot be read, and
    [wrapper-config.yaml] would be valid. *)
Definition deniedWorld : World :=
  world ["plan"] "/srv/app" []
    [("/srv/app/wrapper-config.yml", inl permissionDenied);
     ("/srv/app/wrapper-config.yaml", inr "app.yml")]
    [("app.yml", document [rule "" "arn:aws:iam::111:role/x"])]
    (mkStatus 0 None).

(** A document with no [region], an empty [bucket] and an [execution] that
    is not an array. *)
Definition brokenDocument : JsVal :=
  JObj [("s3_backend",
         JObj [("role_arn", JStr "arn:aws:iam::111:role/state");
               ("bucket", JStr "");
               ("dynamodb_table", JStr "tflock")]);
        ("execution", JStr "none")].

(** In [/srv/app]: [wrapper-config.yml] is the broken document, and a valid
    configuration lies in [/srv]. *)
Definition brokenWorld : World :=
  world ["plan"] "/srv/app" []
    [("/srv/app/wrapper-config.yml", inr "broken.yml");
     ("/srv/wrapper-config.yml", inr "srv.yml")]
    [("broken.yml", brokenDocument);
     ("srv.yml", document [rule "app" "arn:aws:iam::111:role/x"])]
    (mkStatus 0 None).

(** [projWorld] with a subprocess that signal 9 ends. *)
Definition killedWorld : World :=
  world ["plan"; "-chdir=/tmp/proj/sub"] "/home/u" []
    [("/tmp/proj/wrapper-config.yml", inr "proj.yml")]
    [("proj.yml", document [rule "sub" "arn:aws:iam::111:role/x"])]
    (mkStatus 137 (Some 9%Z)).

(** No configuration file anywhere; the subprocess exits with code 3. *)
Definition bareWorld (vars : list (string * string)) : World :=
  world ["plan"; "-input=false"] "/srv/app" vars [] [] (mkStatus 3 None).

(** [projWorld] with the override that suppresses the subprocess, and a
    working directory where the generated file cannot be written. *)
Definition readOnlyWorld : World :=
  {| args := ["plan"; "-chdir=/tmp/proj/sub"];
     cwd := "/home/u";
     env := fun name =>
       if String.eqb name "TERRAWRAP_NO_TERRAFORM" then Some "true" else None;
     readTextFile := readTextFile projWorld;
     parseYml := parseYml projWorld;
     writeTextFile := fun _ _ => Some permissionDenied;
     remove := fun _ => Some notFound;
     run := fun _ => inr (mkStatus 0 None) |}.

(** The context that [loadConfig] returns in [projWorld], with the rules
    replaced by [rules]. *)
Definition projConfig (rules : list JsVal) : Config :=
  {| file := "/tmp/proj/wrapper-config.yml";
     workingDir := "/tmp/proj/sub";
     key := "sub";
     config := document rules |}.

End Examples.

(* ===================================================================== *)
(** * Facts about strings *)
(* ===================================================================== *)

Section StringFacts.

Lemma append_assoc (a b c : string) : (a ++ b) ++ c = a ++ (b ++ c).
Proof. induction a as [|x a IH]; simpl; [reflexivity|now rewrite IH]. Qed.

Lemma append_empty_r (a : string) : a ++ "" = a.
Proof. induction a as [|x a IH]; simpl; [reflexivity|now rewrite IH]. Qed.

Lemma length_append (a b : string) :
  String.length (a ++ b) = String.length a + String.length b.
Proof. induction a as [|x a IH]; simpl; [reflexivity|now rewrite IH]. Qed.

Lemma substring_all (s : string) : substring 0 (String.length s) s = s.
Proof. induction s as [|x s IH]; simpl; [reflexivity|now rewrite IH]. Qed.

Lemma substring_0_append (a b : string) :
  substring 0 (String.length a) (a ++ b) = a.
Proof.
  induction a as [|x a IH]; simpl.
  - destruct b; reflexivity.
  - now rewrite IH.
Qed.

Lemma slice_append (a b : string) : Js.slice (String.length a) (a ++ b) = b.
Proof.
  unfold Js.slice. rewrite length_append.
  replace (String.length a + String.length b - String.length a)
    with (String.length b) by lia.
  induction a as [|x a IH]; simpl; [apply substring_all|exact IH].
Qed.

Lemma slice_0 (s : string) : Js.slice 0 s = s.
Proof. unfold Js.slice. rewrite Nat.sub_0_r. apply substring_all. Qed.

Lemma slice_S (n : nat) (c : ascii) (s : string) :
  Js.slice (S n) (String c s) = Js.slice n s.
Proof. reflexivity. Qed.

Lemma prefix_append (a b : string) : String.prefix a (a ++ b) = true.
Proof.
  induction a as [|x a IH]; simpl.
  - destruct b; reflexivity.
  - destruct (ascii_dec x x); [exact IH|contradiction].
Qed.

Lemma prefix_split (a s : string) :
  String.prefix a s = true -> exists b, s = a ++ b.
Proof.
  revert s. induction a as [|x a IH]; intros s H.
  - exists s. reflexivity.
  - destruct s as [|y s]; simpl in H; [discriminate|].
    destruct (ascii_dec x y) as [->|]; [|discriminate].
    destruct (IH _ H) as [b ->]. exists b. reflexivity.
Qed.

Lemma chars_append (a b : string) :
  list_ascii_of_string (a ++ b)
  = (list_ascii_of_string a ++ list_ascii_of_string b)%list.
Proof. induction a as [|x a IH]; simpl; [reflexivity|now rewrite IH]. Qed.

Lemma chars_length (a : string) :
  List.length (list_ascii_of_string a) = String.length a.
Proof. induction a as [|x a IH]; simpl; [reflexivity|now rewrite IH]. Qed.

End StringFacts.

(* ===================================================================== *)
(** * Resolved directories

    [path.resolve] returns an absolute, normalised path: a slash followed by
    segments that are not empty, hold no slash and are neither [.] nor
    [..], joined by slashes.  [absPath segs] is that path. *)
(* ===================================================================== *)

Module Resolved.
Import Path.

Fixpoint noSep (s : string) : bool :=
  match s with
  | EmptyString => true
  | String c rest => negb (Ascii.eqb c sep) && noSep rest
  end.

Definition segmentOk (s : string) : bool :=
  negb (String.eqb s "") && negb (String.eqb s ".")
  && negb (String.eqb s "..") && noSep s.

Definition absPath (segs : list string) : string :=
  "/" ++ String.concat "/" segs.

(** Every segment with the slash before it. *)
Fixpoint slashed (segs : list string) : string :=
  match segs with
  | [] => ""
  | s :: rest => "/" ++ s ++ slashed rest
  end.

Lemma concat_cons s rest : String.concat "/" (s :: rest) = s ++ slashed rest.
Proof.
  revert s. induction rest as [|s' rest IH]; intros s.
  - simpl. now rewrite append_empty_r.
  - change (String.concat "/" (s :: s' :: rest))
      with (s ++ "/" ++ String.concat "/" (s' :: rest)).
    now rewrite IH.
Qed.

Lemma absPath_cons s rest : absPath (s :: rest) = slashed (s :: rest).
Proof. unfold absPath. now rewrite concat_cons. Qed.

Lemma slashed_app a b : slashed (a ++ b) = slashed a ++ slashed b.
Proof.
  induction a as [|x a IH]; simpl; [reflexivity|].
  now rewrite IH, append_assoc.
Qed.

Lemma absPath_snoc segs s : absPath (segs ++ [s]) = slashed segs ++ "/" ++ s.
Proof.
  destruct segs as [|x segs].
  - reflexivity.
  - rewrite <- app_comm_cons, absPath_cons.
    change (x :: segs ++ [s])%list with ((x :: segs) ++ [s])%list.
    rewrite slashed_app. simpl. now rewrite append_empty_r.
Qed.

Lemma absPath_app base rel :
  base <> [] -> absPath (base ++ rel) = absPath base ++ slashed rel.
Proof.
  destruct base as [|x base]; [contradiction|]. intros _.
  rewrite <- app_comm_cons, !absPath_cons.
  change (x :: base ++ rel)%list with ((x :: base) ++ rel)%list.
  apply slashed_app.
Qed.

Lemma segmentOk_inv s :
  segmentOk s = true ->
  s <> "" /\ s <> "." /\ s <> ".." /\ noSep s = true.
Proof.
  unfold segmentOk. rewrite !andb_true_iff, !negb_true_iff, !String.eqb_neq.
  tauto.
Qed.

(** *** [path.dirname] on a resolved directory *)

Lemma dirnameEnd_skip l :
  Forall (fun c => Ascii.eqb c sep = false) l -> l <> [] ->
  forall rest i m,
    dirnameEnd (l ++ rest) (i + List.length l) m = dirnameEnd rest i false.
Proof.
  induction l as [|c l IH]; intros Hl Hne rest i m; [contradiction|].
  inversion Hl as [|? ? Hc Hl']; subst.
  simpl. replace (i + S (List.length l) <? 1)%nat with false
    by (symmetry; apply Nat.ltb_ge; lia).
  rewrite Hc.
  replace (i + S (List.length l) - 1) with (i + List.length l) by lia.
  destruct l as [|c' l'].
  - simpl. now rewrite Nat.add_0_r.
  - apply IH; [assumption|discriminate].
Qed.

Lemma noSep_chars s :
  noSep s = true ->
  Forall (fun c => Ascii.eqb c sep = false) (list_ascii_of_string s).
Proof.
  induction s as [|c s IH]; simpl; intros H; constructor.
  - apply andb_true_iff in H. destruct H as [H _].
    now apply negb_true_iff in H.
  - apply IH. apply andb_true_iff in H. tauto.
Qed.

Lemma slashed_absolute segs s : isAbsolute (slashed segs ++ "/" ++ s) = true.
Proof. destruct segs; reflexivity. Qed.

Lemma dirname_snoc segs s :
  forallb segmentOk segs = true -> segmentOk s = true ->
  dirname (absPath (segs ++ [s])) = absPath segs.
Proof.
  intros Hsegs Hs. apply segmentOk_inv in Hs.
  destruct Hs as (Hs0 & _ & _ & Hs).
  rewrite absPath_snoc. unfold dirname.
  rewrite slashed_absolute.
  set (pre := slashed segs).
  assert (Hlen : String.length (pre ++ "/" ++ s)
                 = S (String.length pre + String.length s)).
  { rewrite length_append. simpl. lia. }
  rewrite Hlen. simpl Nat.eqb. cbv iota.
  rewrite chars_append. simpl list_ascii_of_string.
  rewrite rev_app_distr. simpl rev. rewrite <- app_assoc. simpl app.
  replace (S (String.length pre + String.length s) - 1)
    with (String.length pre + List.length (rev (list_ascii_of_string s)))
    by (rewrite length_rev, chars_length; lia).
  rewrite dirnameEnd_skip.
  - simpl dirnameEnd. destruct segs as [|x segs].
    + reflexivity.
    + simpl in Hsegs. apply andb_true_iff in Hsegs. destruct Hsegs as [Hx _].
      apply segmentOk_inv in Hx. destruct Hx as (Hx0 & _).
      assert (Hpre : 2 <= String.length pre).
      { subst pre. simpl. rewrite length_append.
        destruct x; [contradiction|simpl; lia]. }
      replace (String.length pre <? 1)%nat with false
        by (symmetry; apply Nat.ltb_ge; lia).
      replace (String.length pre =? 1)%nat with false
        by (symmetry; apply Nat.eqb_neq; lia).
      simpl andb. cbv iota. rewrite substring_0_append.
      subst pre. now rewrite absPath_cons.
  - apply Forall_rev. now apply noSep_chars.
  - destruct s; [contradiction|]. simpl.
    intros H. apply app_eq_nil in H. destruct H; discriminate.
Qed.

Lemma dirname_root : dirname (absPath []) = absPath [].
Proof. reflexivity. Qed.

(** *** [path.join] of a resolved directory and a file name *)

Lemma split_nonempty p : split p <> [].
Proof.
  destruct p as [|c p]; simpl; [discriminate|].
  destruct (Ascii.eqb c sep); [discriminate|].
  destruct (split p); discriminate.
Qed.

Lemma split_append a b : split (a ++ String sep b) = (split a ++ split b)%list.
Proof.
  induction a as [|c a IH]; simpl.
  - reflexivity.
  - destruct (Ascii.eqb c sep).
    + now rewrite IH.
    + rewrite IH. pose proof (split_nonempty a) as Hne.
      destruct (split a); [contradiction|reflexivity].
Qed.

Lemma split_segment s : noSep s = true -> split s = [s].
Proof.
  induction s as [|c s IH]; simpl; intros H; [reflexivity|].
  apply andb_true_iff in H. destruct H as [Hc Hs].
  apply negb_true_iff in Hc. rewrite Hc, (IH Hs). reflexivity.
Qed.

Lemma split_slashed rest :
  forall x, noSep x = true -> forallb segmentOk rest = true ->
  split (x ++ slashed rest) = x :: rest.
Proof.
  induction rest as [|y rest IH]; intros x Hx Hrest; simpl.
  - rewrite append_empty_r. now apply split_segment.
  - simpl in Hrest. apply andb_true_iff in Hrest. destruct Hrest as [Hy Hrest].
    apply segmentOk_inv in Hy. destruct Hy as (_ & _ & _ & Hy).
    change ("/" ++ y ++ slashed rest) with (String sep (y ++ slashed rest)).
    rewrite split_append, (split_segment x Hx), (IH y Hy Hrest). reflexivity.
Qed.

Definition nonEmpty (s : string) : bool := negb (String.eqb s "").

Lemma normalizeSegments_plain l :
  forall acc,
    forallb (fun s => String.eqb s "" || segmentOk s) l = true ->
    normalizeSegments false l acc = (rev acc ++ filter nonEmpty l)%list.
Proof.
  induction l as [|s l IH]; intros acc H; simpl.
  - now rewrite app_nil_r.
  - simpl in H. apply andb_true_iff in H. destruct H as [Hs Hl].
    unfold nonEmpty at 1.
    destruct (String.eqb_spec s "") as [->|Hne]; simpl.
    + now apply IH.
    + simpl in Hs. apply segmentOk_inv in Hs. destruct Hs as (_ & H1 & H2 & _).
      apply String.eqb_neq in H1, H2. rewrite H1, H2.
      rewrite IH by assumption. simpl. now rewrite <- app_assoc.
Qed.

Lemma filter_nonEmpty_ok l :
  forallb segmentOk l = true -> filter nonEmpty l = l.
Proof.
  induction l as [|s l IH]; simpl; intros H; [reflexivity|].
  apply andb_true_iff in H. destruct H as [Hs Hl].
  apply segmentOk_inv in Hs. destruct Hs as (Hs & _).
  unfold nonEmpty at 1. apply String.eqb_neq in Hs. rewrite Hs. simpl.
  now rewrite IH.
Qed.

Lemma forallb_weaken l :
  forallb segmentOk l = true ->
  forallb (fun s => String.eqb s "" || segmentOk s) l = true.
Proof.
  induction l as [|s l IH]; simpl; intros H; [reflexivity|].
  apply andb_true_iff in H. destruct H as [Hs Hl].
  rewrite Hs, orb_true_r. simpl. now apply IH.
Qed.

Lemma last_char_append a b : b <> "" -> last_char (a ++ b) = last_char b.
Proof.
  intros Hb. induction a as [|c a IH]; [reflexivity|].
  simpl. rewrite IH. destruct (a ++ b) eqn:E; [|reflexivity].
  destruct a; simpl in E; [congruence|discriminate].
Qed.

Lemma noSep_last s : noSep s = true -> trailingSeparator s = false.
Proof.
  unfold trailingSeparator.
  induction s as [|c s IH]; simpl; intros H; [reflexivity|].
  apply andb_true_iff in H. destruct H as [Hc Hs].
  destruct s as [|c' s']; [now apply negb_true_iff in Hc|].
  exact (IH Hs).
Qed.

Lemma normalizeString_absPath segs name :
  forallb segmentOk segs = true -> segmentOk name = true ->
  normalizeString (absPath segs ++ "/" ++ name) false
  = String.concat "/" (segs ++ [name]).
Proof.
  intros Hsegs Hname. unfold normalizeString. f_equal.
  pose proof (segmentOk_inv _ Hname) as (_ & _ & _ & Hsep).
  change (absPath segs ++ "/" ++ name)
    with (String sep (String.concat "/" segs ++ String sep name)).
  change (split (String sep (String.concat "/" segs ++ String sep name)))
    with (EmptyString :: split (String.concat "/" segs ++ String sep name)).
  rewrite split_append, (split_segment name Hsep).
  rewrite normalizeSegments_plain.
  - simpl. destruct segs as [|x segs].
    + simpl. unfold nonEmpty. apply segmentOk_inv in Hname.
      destruct Hname as (Hn & _). apply String.eqb_neq in Hn. now rewrite Hn.
    + rewrite concat_cons. simpl in Hsegs.
      apply andb_true_iff in Hsegs. destruct Hsegs as [Hx Hrest].
      pose proof (segmentOk_inv _ Hx) as (_ & _ & _ & Hxsep).
      rewrite (split_slashed segs x Hxsep Hrest).
      apply filter_nonEmpty_ok. rewrite forallb_app. simpl.
      now rewrite Hx, Hrest, Hname.
  - simpl. destruct segs as [|x segs].
    + simpl. now rewrite Hname, orb_true_r.
    + rewrite concat_cons. simpl in Hsegs.
      apply andb_true_iff in Hsegs. destruct Hsegs as [Hx Hrest].
      pose proof (segmentOk_inv _ Hx) as (_ & _ & _ & Hxsep).
      rewrite (split_slashed segs x Hxsep Hrest).
      apply forallb_weaken. rewrite forallb_app. simpl.
      now rewrite Hx, Hrest, Hname.
Qed.

Lemma join_absPath segs name :
  forallb segmentOk segs = true -> segmentOk name = true ->
  join (absPath segs) name = absPath (segs ++ [name]).
Proof.
  intros Hsegs Hname.
  pose proof (segmentOk_inv _ Hname) as (Hn & _ & _ & Hsep).
  unfold join. change (String.eqb (absPath segs) "") with false.
  apply String.eqb_neq in Hn. rewrite Hn. cbv iota.
  unfold normalize.
  change (String.eqb (absPath segs ++ "/" ++ name) "") with false.
  change (isAbsolute (absPath segs ++ "/" ++ name)) with true.
  cbv iota. simpl negb. rewrite andb_false_r.
  rewrite normalizeString_absPath by assumption.
  replace (trailingSeparator (absPath segs ++ "/" ++ name)) with false.
  - rewrite !andb_false_r. reflexivity.
  - symmetry. unfold trailingSeparator.
    rewrite <- append_assoc, last_char_append
      by (apply String.eqb_neq; exact Hn).
    now apply noSep_last.
Qed.

End Resolved.

(* ===================================================================== *)
(** * The candidate files of a resolved directory *)
(* ===================================================================== *)

Module Candidates.
Import Js Terrawrap Resolved.

Lemma allPossibleConfigLocation_unfold dir :
  allPossibleConfigLocation dir
  = Path.join dir "wrapper-config.yml"
      :: Path.join dir "wrapper-config.yaml"
      :: (if String.eqb (Path.dirname dir) dir then []
          else allPossibleConfigLocation (Path.dirname dir)).
Proof.
  rewrite allPossibleConfigLocation_equation_1.
  destruct (inspect (String.eqb (Path.dirname dir) dir)) as [b e].
  destruct b; cbn [allPossibleConfigLocation_unfold_clause_1];
    rewrite e; reflexivity.
Qed.

(** The candidates of the directory whose segments, deepest first, are
    [rsegs], and of every directory above it. *)
Fixpoint candidatesUp (rsegs : list string) : list string :=
  absPath (rev rsegs ++ ["wrapper-config.yml"])
    :: absPath (rev rsegs ++ ["wrapper-config.yaml"])
    :: match rsegs with
       | [] => []
       | _ :: up => candidatesUp up
       end.

Lemma candidatesUp_unfold rsegs :
  candidatesUp rsegs
  = absPath (rev rsegs ++ ["wrapper-config.yml"])
      :: absPath (rev rsegs ++ ["wrapper-config.yaml"])
      :: match rsegs with
         | [] => []
         | _ :: up => candidatesUp up
         end.
Proof. destruct rsegs; reflexivity. Qed.

Lemma absPath_snoc_neq segs s :
  segmentOk s = true -> absPath (segs ++ [s]) <> absPath segs.
Proof.
  intros Hs E. apply segmentOk_inv in Hs. destruct Hs as (Hs & _).
  apply (f_equal String.length) in E.
  rewrite absPath_snoc, length_append in E.
  destruct segs as [|x segs].
  - destruct s; [contradiction|]. simpl in E. lia.
  - rewrite absPath_cons in E. simpl in E. lia.
Qed.

Lemma allPossibleConfigLocation_absPath segs :
  forallb segmentOk segs = true ->
  allPossibleConfigLocation (absPath segs) = candidatesUp (rev segs).
Proof.
  induction segs as [|s segs IH] using rev_ind; intros Hok.
  - rewrite allPossibleConfigLocation_unfold. reflexivity.
  - rewrite forallb_app in Hok. apply andb_true_iff in Hok.
    destruct Hok as [Hsegs Hs]. simpl in Hs. rewrite andb_true_r in Hs.
    assert (Hall : forallb segmentOk (segs ++ [s]) = true).
    { rewrite forallb_app. simpl. now rewrite Hsegs, Hs. }
    rewrite allPossibleConfigLocation_unfold.
    rewrite !join_absPath by (assumption || reflexivity).
    rewrite dirname_snoc by assumption.
    pose proof (absPath_snoc_neq segs s Hs) as Hne.
    apply not_eq_sym in Hne. apply String.eqb_neq in Hne. rewrite Hne.
    rewrite (IH Hsegs), rev_app_distr. simpl.
    now rewrite rev_involutive.
Qed.

End Candidates.

(* ===================================================================== *)
(** * Computations *)
(* ===================================================================== *)

Section IOFacts.
Import Terrawrap.

Lemma result_pair {A} (t : list Event) (r : Res A) : result (t, r) = r.
Proof. reflexivity. Qed.

Lemma trace_pair {A} (t : list Event) (r : Res A) : trace (t, r) = t.
Proof. reflexivity. Qed.

Lemma bind_ret_l {A B} (a : A) (f : A -> IO B) : bind (ret a) f = f a.
Proof. unfold bind, ret. destruct (f a). reflexivity. Qed.

Lemma bind_ret_r {A} (m : IO A) : bind m ret = m.
Proof.
  destruct m as [t [a|e|c]]; simpl; try reflexivity.
  now rewrite app_nil_r.
Qed.

Lemma bind_assoc {A B C} (m : IO A) (f : A -> IO B) (g : B -> IO C) :
  bind (bind m f) g = bind m (fun a => bind (f a) g).
Proof.
  destruct m as [t [a|e|c]]; simpl; try reflexivity.
  destruct (f a) as [t' [b|e|c]]; simpl; try reflexivity.
  destruct (g b) as [t'' r]. now rewrite app_assoc.
Qed.

End IOFacts.

(* ===================================================================== *)
(** * The loader *)
(* ===================================================================== *)

Module Loader.
Import Js Terrawrap Resolved Candidates.

(** Reading [f] fails with [Deno.errors.NotFound]. *)
Definition isMissing (w : World) (f : string) : bool :=
  match readTextFile w f with
  | inl e => isNotFound e
  | inr _ => false
  end.

Lemma tryReadParse_missing w f :
  isMissing w f = true ->
  exists e, tryReadParse w f = inl e /\ isNotFound e = true.
Proof.
  unfold isMissing, tryReadParse.
  destruct (readTextFile w f) as [e|text]; [|discriminate].
  intros H. now exists e.
Qed.

Lemma loadConfigFrom_missing w wd f rest :
  isMissing w f = true ->
  loadConfigFrom w wd (f :: rest)
  = (ReadTextFile f :: trace (loadConfigFrom w wd rest),
     result (loadConfigFrom w wd rest)).
Proof.
  intros H. destruct (tryReadParse_missing w f H) as (e & He & Hnf).
  simpl. rewrite He, Hnf.
  destruct (loadConfigFrom w wd rest) as [t r]. reflexivity.
Qed.

Lemma loadConfigFrom_all_missing w wd l :
  forallb (isMissing w) l = true ->
  loadConfigFrom w wd l = (map ReadTextFile l, Ret None).
Proof.
  induction l as [|f l IH]; intros H; [reflexivity|].
  simpl in H. apply andb_true_iff in H. destruct H as [Hf Hl].
  rewrite (loadConfigFrom_missing w wd f l Hf), (IH Hl). reflexivity.
Qed.

Lemma loadConfigFrom_found w wd f rest parsed :
  tryReadParse w f = inr parsed ->
  validationErrors parsed = [] ->
  loadConfigFrom w wd (f :: rest)
  = ([ReadTextFile f],
     Ret (Some {| file := f;
                  workingDir := wd;
                  key := slice (String.length (Path.dirname f) + 1) wd;
                  config := parsed |})).
Proof.
  intros Hp Hv. simpl. rewrite Hp, Hv. reflexivity.
Qed.

(** Climbing from a directory to an ancestor over directories that hold no
    candidate. *)
Lemma loadConfigFrom_climb w wd b :
  forall r,
    (forall pre suf, rev r = (pre ++ suf)%list -> pre <> [] ->
       isMissing w (absPath ((rev b ++ pre) ++ ["wrapper-config.yml"])) = true
       /\ isMissing w (absPath ((rev b ++ pre) ++ ["wrapper-config.yaml"])) = true) ->
    result (loadConfigFrom w wd (candidatesUp (r ++ b)))
    = result (loadConfigFrom w wd (candidatesUp b)).
Proof.
  induction r as [|s r IH]; intros H; [reflexivity|].
  destruct (H (rev (s :: r)) []) as [Hyml Hyaml].
  { now rewrite app_nil_r. }
  { simpl. intros E. apply app_eq_nil in E. destruct E; discriminate. }
  change (candidatesUp ((s :: r) ++ b))
    with (absPath (rev ((s :: r) ++ b) ++ ["wrapper-config.yml"])
            :: absPath (rev ((s :: r) ++ b) ++ ["wrapper-config.yaml"])
            :: candidatesUp (r ++ b)).
  rewrite rev_app_distr.
  rewrite (loadConfigFrom_missing _ _ _ _ Hyml). rewrite result_pair.
  rewrite (loadConfigFrom_missing _ _ _ _ Hyaml). rewrite result_pair.
  apply IH. intros pre suf E Hpre.
  apply (H pre (suf ++ [s])%list); [|assumption].
  simpl. rewrite E. now rewrite app_assoc.
Qed.

(** The key of a directory below a configuration directory. *)
Lemma key_below base rel :
  base <> [] -> rel <> [] ->
  slice (String.length (absPath base) + 1) (absPath (base ++ rel))
  = String.concat "/" rel.
Proof.
  intros Hb Hr. rewrite (absPath_app base rel Hb).
  destruct rel as [|x rel]; [contradiction|].
  rewrite concat_cons.
  change (slashed (x :: rel)) with ("/" ++ (x ++ slashed rel)).
  rewrite <- append_assoc.
  replace (String.length (absPath base) + 1)
    with (String.length (absPath base ++ "/"))
    by (rewrite length_append; reflexivity).
  apply slice_append.
Qed.

(** The same computation when the configuration directory is the root:
    one code unit too many is cut. *)
Lemma key_below_root rel :
  slice (String.length (absPath []) + 1) (absPath rel)
  = slice 1 (String.concat "/" rel).
Proof. reflexivity. Qed.

(** The scan from a resolved directory [base/rel] when the first candidate
    that exists is [name] in [base]. *)
Lemma loadConfig_descendant w base rel name parsed :
  forallb segmentOk (base ++ rel) = true ->
  (forall pre suf, rel = (pre ++ suf)%list -> pre <> [] ->
     isMissing w (absPath (base ++ pre ++ ["wrapper-config.yml"])) = true
     /\ isMissing w (absPath (base ++ pre ++ ["wrapper-config.yaml"])) = true) ->
  name = "wrapper-config.yml"
  \/ (name = "wrapper-config.yaml"
      /\ isMissing w (absPath (base ++ ["wrapper-config.yml"])) = true) ->
  tryReadParse w (absPath (base ++ [name])) = inr parsed ->
  validationErrors parsed = [] ->
  result (loadConfig w (absPath (base ++ rel)))
  = Ret (Some {| file := absPath (base ++ [name]);
                 workingDir := absPath (base ++ rel);
                 key := slice (String.length (absPath base) + 1)
                          (absPath (base ++ rel));
                 config := parsed |}).
Proof.
  intros Hok Hcloser Hname Hparsed Hvalid.
  unfold loadConfig.
  rewrite (allPossibleConfigLocation_absPath _ Hok), rev_app_distr.
  rewrite forallb_app in Hok. apply andb_true_iff in Hok.
  destruct Hok as [Hbase Hrel].
  rewrite loadConfigFrom_climb.
  - assert (Hup : candidatesUp (rev base)
                  = absPath (base ++ ["wrapper-config.yml"])
                      :: absPath (base ++ ["wrapper-config.yaml"])
                      :: match rev base with
                         | [] => []
                         | _ :: up => candidatesUp up
                         end).
    { rewrite candidatesUp_unfold, rev_involutive. reflexivity. }
    rewrite Hup. clear Hup.
    destruct Hname as [->|[-> Hyml]].
    + rewrite (loadConfigFrom_found _ _ _ _ _ Hparsed Hvalid), result_pair.
      now rewrite dirname_snoc.
    + rewrite (loadConfigFrom_missing _ _ _ _ Hyml), result_pair.
      rewrite (loadConfigFrom_found _ _ _ _ _ Hparsed Hvalid), result_pair.
      now rewrite dirname_snoc.
  - intros pre suf E Hpre. rewrite rev_involutive, <- !app_assoc.
    apply (Hcloser pre suf); [|assumption].
    rewrite rev_involutive in E. exact E.
Qed.

(** Below a configuration directory that is not the root, the key is the
    path of the working directory relative to it. *)
Lemma loadConfig_key_relative w base rel name parsed :
  forallb segmentOk (base ++ rel) = true ->
  base <> [] -> rel <> [] ->
  (forall pre suf, rel = (pre ++ suf)%list -> pre <> [] ->
     isMissing w (absPath (base ++ pre ++ ["wrapper-config.yml"])) = true
     /\ isMissing w (absPath (base ++ pre ++ ["wrapper-config.yaml"])) = true) ->
  name = "wrapper-config.yml"
  \/ (name = "wrapper-config.yaml"
      /\ isMissing w (absPath (base ++ ["wrapper-config.yml"])) = true) ->
  tryReadParse w (absPath (base ++ [name])) = inr parsed ->
  validationErrors parsed = [] ->
  result (loadConfig w (absPath (base ++ rel)))
  = Ret (Some {| file := absPath (base ++ [name]);
                 workingDir := absPath (base ++ rel);
                 key := String.concat "/" rel;
                 config := parsed |}).
Proof.
  intros Hok Hbase Hrel Hcloser Hname Hparsed Hvalid.
  rewrite (loadConfig_descendant w base rel name parsed) by assumption.
  now rewrite key_below.
Qed.

Lemma slice_1_shorter s : s <> "" -> slice 1 s <> s.
Proof.
  destruct s as [|c s]; [contradiction|]. intros _.
  rewrite slice_S, slice_0. intros E.
  apply (f_equal String.length) in E. simpl in E. lia.
Qed.

(** C1, at the filesystem root.  When the first configuration file that
    exists lies in the root directory, and it is valid, the locator returns
    it, but the key is the path of the working directory relative to the
    root with its first code unit cut off, which is never that relative
    path. *)
Theorem loadConfig_root_key w rel name parsed :
  forallb segmentOk rel = true ->
  rel <> [] ->
  (forall pre suf, rel = (pre ++ suf)%list -> pre <> [] ->
     isMissing w (absPath (pre ++ ["wrapper-config.yml"])) = true
     /\ isMissing w (absPath (pre ++ ["wrapper-config.yaml"])) = true) ->
  name = "wrapper-config.yml"
  \/ (name = "wrapper-config.yaml"
      /\ isMissing w (absPath ["wrapper-config.yml"]) = true) ->
  tryReadParse w (absPath [name]) = inr parsed ->
  validationErrors parsed = [] ->
  result (loadConfig w (absPath rel))
  = Ret (Some {| file := absPath [name];
                 workingDir := absPath rel;
                 key := slice 1 (String.concat "/" rel);
                 config := parsed |})
  /\ slice 1 (String.concat "/" rel) <> String.concat "/" rel.
Proof.
  intros Hok Hrel Hcloser Hname Hparsed Hvalid. split.
  - rewrite <- key_below_root.
    exact (loadConfig_descendant w [] rel name parsed Hok Hcloser Hname
             Hparsed Hvalid).
  - apply slice_1_shorter. destruct rel as [|x rel]; [contradiction|].
    rewrite concat_cons. simpl in Hok. apply andb_true_iff in Hok.
    destruct Hok as [Hx _]. apply segmentOk_inv in Hx.
    destruct Hx as (Hx & _). destruct x; [contradiction|discriminate].
Qed.

(** The working directory [/a/b] under a valid [/wrapper-config.yml]: the
    key is [/b], not [a/b]. *)
Lemma loadConfig_root_key_witness :
  result (loadConfig Examples.rootWorld "/a/b")
  = Ret (Some {| file := "/wrapper-config.yml";
                 workingDir := "/a/b";
                 key := "/b";
                 config := Examples.document
                             [Examples.rule "a" "arn:aws:iam::111:role/x"] |})
  /\ "/b" <> "a/b".
Proof.
  apply (loadConfig_root_key Examples.rootWorld ["a"; "b"] "wrapper-config.yml"
           (Examples.document [Examples.rule "a" "arn:aws:iam::111:role/x"])).
  - reflexivity.
  - discriminate.
  - intros pre suf E Hpre.
    destruct pre as [|x [|y [|z pre]]]; [contradiction| | |];
      inversion E; subst; split; reflexivity.
  - left. reflexivity.
  - reflexivity.
  - reflexivity.
Defined.

(** ** Read and parse failures *)

(** The texts of the messages, written out here independently of the
    script's own formatting. *)
Definition lineFeed : string := String "010"%char EmptyString.
Definition quoteMark : string := String "034"%char EmptyString.

(** [configFile] exists and is text, but the parser refuses it. *)
Definition garbledWorld : World :=
  Examples.world ["plan"] "/srv/app" []
    [("/srv/app/wrapper-config.yml", inr "a: [");
     ("/srv/app/wrapper-config.yaml", inr "app.yml")]
    [("app.yml", Examples.document [Examples.rule "" "arn:aws:iam::111:role/x"])]
    (mkStatus 0 None).

(** C4.  What the scan does with a candidate that cannot be loaded, by what
    [Deno.readTextFile] and [parseYml] do.  When the read fails with
    [NotFound] the scan reads the candidate and goes on with the next ones.
    When the read fails with any other error, and when the read succeeds but
    the parser throws, the process ends with status 1 after one message that
    holds the path of the candidate, a line feed and the error, and no later
    candidate is read. *)
Theorem loadConfig_read_error w wd configFile rest :
  (forall e,
     readTextFile w configFile = inl e -> isNotFound e = true ->
     loadConfigFrom w wd (configFile :: rest)
     = (ReadTextFile configFile :: trace (loadConfigFrom w wd rest),
        result (loadConfigFrom w wd rest)))
  /\ (forall e,
        readTextFile w configFile = inl e -> isNotFound e = false ->
        loadConfigFrom w wd (configFile :: rest)
        = ([ReadTextFile configFile;
            ConsoleError ("File: " ++ configFile ++ lineFeed ++ errorText e)],
           Exit 1%Z))
  /\ (forall text yamlError,
        readTextFile w configFile = inr text ->
        parseYml w text = inl yamlError ->
        loadConfigFrom w wd (configFile :: rest)
        = ([ReadTextFile configFile;
            ConsoleError ("File: " ++ configFile ++ lineFeed ++ yamlError)],
           Exit 1%Z)).
Proof.
  split; [|split].
  - intros e Hread Hnf. apply loadConfigFrom_missing.
    unfold isMissing. now rewrite Hread.
  - intros e Hread Hnf. simpl. unfold tryReadParse.
    rewrite Hread, Hnf. reflexivity.
  - intros text yamlError Hread Hparse. simpl. unfold tryReadParse.
    rewrite Hread, Hparse. reflexivity.
Qed.

(** A candidate that cannot be read for lack of permission, and a candidate
    that does not parse: in both worlds the valid candidate after it is
    never tried. *)
Lemma loadConfig_read_error_witness :
  loadConfigFrom Examples.deniedWorld "/srv/app"
    ["/srv/app/wrapper-config.yml"; "/srv/app/wrapper-config.yaml"]
  = ([ReadTextFile "/srv/app/wrapper-config.yml";
      ConsoleError ("File: /srv/app/wrapper-config.yml" ++ lineFeed
                      ++ "PermissionDenied: Permission denied (os error 13)")],
     Exit 1%Z)
  /\ loadConfigFrom garbledWorld "/srv/app"
       ["/srv/app/wrapper-config.yml"; "/srv/app/wrapper-config.yaml"]
     = ([ReadTextFile "/srv/app/wrapper-config.yml";
         ConsoleError ("File: /srv/app/wrapper-config.yml" ++ lineFeed
                         ++ "YAMLError: cannot parse")],
        Exit 1%Z).
Proof.
  exact (conj
           (proj1 (proj2 (loadConfig_read_error Examples.deniedWorld "/srv/app"
                            "/srv/app/wrapper-config.yml"
                            ["/srv/app/wrapper-config.yaml"]))
              Examples.permissionDenied eq_refl eq_refl)
           (proj2 (proj2 (loadConfig_read_error garbledWorld "/srv/app"
                            "/srv/app/wrapper-config.yml"
                            ["/srv/app/wrapper-config.yaml"]))
              "a: [" "YAMLError: cannot parse" eq_refl eq_refl)).
Defined.

(** ** Validation *)

(** A value that is missing or empty. *)
Definition missingOrEmpty (v : JsVal) : bool :=
  match v with
  | JUndefined | JNull => true
  | JStr s => String.eqb s ""
  | _ => false
  end.

(** The fields of a parsed document that the requirement on the
    configuration file rules out: a required string of [s3_backend] that is
    missing or empty, and an [execution] that is not an array. *)
Definition violatedFields (parsed : JsVal) : list string :=
  let s3_backend := opt_member parsed "s3_backend" in
  ((if missingOrEmpty (opt_member s3_backend "role_arn")
    then [".s3_backend.role_arn"] else [])
   ++ (if missingOrEmpty (opt_member s3_backend "region")
       then [".s3_backend.region"] else [])
   ++ (if missingOrEmpty (opt_member s3_backend "bucket")
       then [".s3_backend.bucket"] else [])
   ++ (if missingOrEmpty (opt_member s3_backend "dynamodb_table")
       then [".s3_backend.dynamodb_table"] else [])
   ++ (if isArray (opt_member parsed "execution")
       then [] else [".execution"]))%list.

Lemma missingOrEmpty_invalid v :
  missingOrEmpty v = true -> isValidString v = false.
Proof.
  destruct v as [| | | |s| |]; simpl; try discriminate; try reflexivity.
  intros H. apply String.eqb_eq in H. subst s. reflexivity.
Qed.

Lemma violatedFields_reported parsed field :
  In field (violatedFields parsed) ->
  In (invalid field) (validationErrors parsed).
Proof.
  unfold violatedFields, validationErrors. cbv zeta.
  rewrite !in_app_iff.
  intros [H|[H|[H|[H|H]]]].
  - destruct (missingOrEmpty _) eqn:M in H; [|contradiction].
    destruct H as [<-|[]]. rewrite (missingOrEmpty_invalid _ M).
    left. left. reflexivity.
  - destruct (missingOrEmpty _) eqn:M in H; [|contradiction].
    destruct H as [<-|[]]. rewrite (missingOrEmpty_invalid _ M).
    right. left. left. reflexivity.
  - destruct (missingOrEmpty _) eqn:M in H; [|contradiction].
    destruct H as [<-|[]]. rewrite (missingOrEmpty_invalid _ M).
    right. right. left. left. reflexivity.
  - destruct (missingOrEmpty _) eqn:M in H; [|contradiction].
    destruct H as [<-|[]]. rewrite (missingOrEmpty_invalid _ M).
    right. right. right. left. left. reflexivity.
  - destruct (isArray _) eqn:A in H; [contradiction|].
    destruct H as [<-|[]]. rewrite A.
    right. right. right. right. left. reflexivity.
Qed.

(** The line of the report for [field]: a line feed, then the word
    [Invalid] and the path of the field between double quotes. *)
Definition reportLine (field : string) : string :=
  lineFeed ++ "Invalid " ++ quoteMark ++ field ++ quoteMark.

Definition occursIn (needle hay : string) : Prop :=
  exists pre post, hay = pre ++ needle ++ post.

Lemma concat_occurs sep x l :
  In x l ->
  exists pre post, sep ++ String.concat sep l = pre ++ (sep ++ x) ++ post.
Proof.
  induction l as [|y l IH]; intros Hin; [contradiction|].
  destruct Hin as [->|Hin].
  - destruct l as [|z l].
    + exists "", "". simpl. now rewrite !append_empty_r.
    + exists "", (sep ++ String.concat sep (z :: l)).
      change (String.concat sep (x :: z :: l))
        with (x ++ sep ++ String.concat sep (z :: l)).
      now rewrite append_assoc.
  - destruct l as [|z l]; [contradiction|].
    destruct (IH Hin) as (pre & post & E).
    exists (sep ++ y ++ pre), post.
    change (String.concat sep (y :: z :: l))
      with (y ++ sep ++ String.concat sep (z :: l)).
    rewrite E. now rewrite !append_assoc.
Qed.

(** C3.  A candidate that is read and parsed to a document with at least one
    violated field ends the process with status 1 after a single message.
    The message is the header with the candidate's path followed by the
    lines of the [errors] array, and for every violated field it holds the
    line that names this field: a line feed, [Invalid] and the field's path
    between double quotes.  Nothing is read after the candidate, whatever
    candidates are left. *)
Theorem loadConfig_reports_every_violation w wd configFile rest text parsed :
  readTextFile w configFile = inr text ->
  parseYml w text = inr parsed ->
  violatedFields parsed <> [] ->
  loadConfigFrom w wd (configFile :: rest)
  = ([ReadTextFile configFile;
      ConsoleError ("Config error: " ++ configFile ++ nl
                      ++ String.concat nl (validationErrors parsed))],
     Exit 1%Z)
  /\ forall field,
       In field (violatedFields parsed) ->
       occursIn (reportLine field)
         ("Config error: " ++ configFile ++ nl
            ++ String.concat nl (validationErrors parsed)).
Proof.
  intros Hread Hparse Hv. split.
  - simpl. unfold tryReadParse. rewrite Hread, Hparse.
    destruct (violatedFields parsed) as [|field fields] eqn:E; [contradiction|].
    pose proof (violatedFields_reported parsed field) as Hin.
    rewrite E in Hin. specialize (Hin (or_introl eq_refl)).
    destruct (validationErrors parsed) as [|err errs]; [contradiction|].
    reflexivity.
  - intros field Hin. apply violatedFields_reported in Hin.
    destruct (concat_occurs nl _ _ Hin) as (pre & post & E).
    exists ("Config error: " ++ configFile ++ pre), post.
    change (reportLine field) with (nl ++ invalid field).
    rewrite !append_assoc. do 2 f_equal. rewrite E.
    now rewrite !append_assoc.
Qed.

(** A document without [region], with an empty [bucket] and with a string
    for [execution]: one message with the three lines, and the valid
    configuration one directory up is never read. *)
Lemma loadConfig_reports_every_violation_witness :
  loadConfigFrom Examples.brokenWorld "/srv/app"
    (allPossibleConfigLocation "/srv/app")
  = ([ReadTextFile "/srv/app/wrapper-config.yml";
      ConsoleError
        ("Config error: /srv/app/wrapper-config.yml"
           ++ reportLine ".s3_backend.region"
           ++ reportLine ".s3_backend.bucket"
           ++ reportLine ".execution")],
     Exit 1%Z)
  /\ forall field,
       In field [".s3_backend.region"; ".s3_backend.bucket"; ".execution"] ->
       occursIn (reportLine field)
         ("Config error: /srv/app/wrapper-config.yml"
            ++ reportLine ".s3_backend.region"
            ++ reportLine ".s3_backend.bucket"
            ++ reportLine ".execution").
Proof.
  exact (loadConfig_reports_every_violation Examples.brokenWorld "/srv/app"
           "/srv/app/wrapper-config.yml"
           ["/srv/app/wrapper-config.yaml"; "/srv/wrapper-config.yml";
            "/srv/wrapper-config.yaml"; "/wrapper-config.yml";
            "/wrapper-config.yaml"]
           "broken.yml" Examples.brokenDocument eq_refl eq_refl
           (fun E => eq_ind (violatedFields Examples.brokenDocument)
                       (fun l => match l with [] => False | _ => True end)
                       I [] E)).
Defined.

End Loader.

(* ===================================================================== *)
(** * The [-chdir] flag *)
(* ===================================================================== *)

Module WorkingDir.
Import Js Terrawrap.

(** The argument holds [-chdir] either at its very end or followed by [=]
    and then, up to the end of the argument, no line terminator. *)
Definition chdirOccurs (arg : string) : Prop :=
  exists pre t,
    arg = pre ++ "-chdir" ++ t
    /\ (t = "" \/ exists v, t = "=" ++ v /\ noLineTerminator v = true).

Fixpoint noEquals (s : string) : bool :=
  match s with
  | EmptyString => true
  | String c rest => negb (Ascii.eqb c "="%char) && noEquals rest
  end.

Lemma noEquals_append a b : noEquals (a ++ b) = noEquals a && noEquals b.
Proof.
  induction a as [|c a IH]; simpl; [reflexivity|].
  now rewrite IH, andb_assoc.
Qed.

Lemma chdirTail_inv t g :
  chdirTail t = Some g ->
  (t = "" /\ g = None)
  \/ exists v, t = "=" ++ v /\ noLineTerminator v = true /\ g = Some v.
Proof.
  destruct t as [|c v]; simpl.
  - intros H. injection H as <-. now left.
  - destruct (Ascii.eqb_spec c "="%char) as [->|_]; simpl; [|discriminate].
    destruct (noLineTerminator v) eqn:Hv; [|discriminate].
    intros H. injection H as <-. right. now exists v.
Qed.

Lemma chdirAt_append t : chdirAt ("-chdir" ++ t) = chdirTail t.
Proof.
  unfold chdirAt. rewrite prefix_append.
  change 6 with (String.length "-chdir"). now rewrite slice_append.
Qed.

Lemma chdirAt_inv s g :
  chdirAt s = Some g -> exists t, s = "-chdir" ++ t /\ chdirTail t = Some g.
Proof.
  unfold chdirAt. destruct (String.prefix "-chdir" s) eqn:P; [|discriminate].
  destruct (prefix_split _ _ P) as [t ->].
  change 6 with (String.length "-chdir"). rewrite slice_append.
  intros H. now exists t.
Qed.

Lemma chdirHere_inv s g :
  chdirHere s = Some g ->
  exists d t, s = d ++ "-chdir" ++ t /\ chdirTail t = Some g.
Proof.
  destruct s as [|c s]; simpl.
  - intros H. apply chdirAt_inv in H. destruct H as (t & E & _). discriminate.
  - destruct (Ascii.eqb_spec c "-"%char) as [->|_].
    + destruct (chdirAt s) as [g'|] eqn:A.
      * intros H. injection H as ->. apply chdirAt_inv in A.
        destruct A as (t & -> & Ht). now exists "-", t.
      * intros H. apply chdirAt_inv in H. destruct H as (t & E & Ht).
        now exists "", t.
    + intros H. apply chdirAt_inv in H. destruct H as (t & E & Ht).
      now exists "", t.
Qed.

Lemma chdirMatch_inv s :
  forall g, chdirMatch s = Some g ->
  exists pre t, s = pre ++ "-chdir" ++ t /\ chdirTail t = Some g.
Proof.
  induction s as [|c s IH]; intros g.
  - cbn. discriminate.
  - change (chdirMatch (String c s))
      with (match chdirHere (String c s) with
            | Some g => Some g
            | None => chdirMatch s
            end).
    destruct (chdirHere (String c s)) as [g'|] eqn:Hh.
    + intros H. injection H as ->. apply chdirHere_inv in Hh.
      destruct Hh as (d & t & E & Ht). now exists d, t.
    + intros H. destruct (IH g H) as (pre & t & -> & Ht).
      now exists (String c pre), t.
Qed.

Lemma chdirHere_intro t g :
  chdirTail t = Some g -> chdirHere ("-chdir" ++ t) = Some g.
Proof.
  intros H. change (chdirHere ("-chdir" ++ t))
    with (match chdirAt ("chdir" ++ t) with
          | Some g => Some g
          | None => chdirAt ("-chdir" ++ t)
          end).
  change (chdirAt ("chdir" ++ t)) with (@None (option string)).
  now rewrite chdirAt_append.
Qed.

Lemma chdirMatch_found t g :
  chdirTail t = Some g ->
  forall pre, exists g', chdirMatch (pre ++ "-chdir" ++ t) = Some g'.
Proof.
  intros Ht. induction pre as [|c pre IH].
  - exists g. change (chdirMatch ("" ++ "-chdir" ++ t))
      with (match chdirHere ("-chdir" ++ t) with
            | Some g => Some g
            | None => chdirMatch ("chdir" ++ t)
            end).
    now rewrite (chdirHere_intro t g Ht).
  - change (chdirMatch (String c pre ++ "-chdir" ++ t))
      with (match chdirHere (String c (pre ++ "-chdir" ++ t)) with
            | Some g => Some g
            | None => chdirMatch (pre ++ "-chdir" ++ t)
            end).
    destruct (chdirHere (String c (pre ++ "-chdir" ++ t))) as [g'|].
    + now exists g'.
    + exact IH.
Qed.

Lemma chdirMatch_iff arg :
  (exists g, chdirMatch arg = Some g) <-> chdirOccurs arg.
Proof.
  split.
  - intros [g H]. apply chdirMatch_inv in H.
    destruct H as (pre & t & E & Ht). exists pre, t. split; [exact E|].
    apply chdirTail_inv in Ht.
    destruct Ht as [[-> _]|(v & -> & Hv & _)]; [now left|right; now exists v].
  - intros (pre & t & -> & Ht).
    destruct Ht as [->|(v & -> & Hv)].
    + now apply (chdirMatch_found "" None).
    + apply (chdirMatch_found ("=" ++ v) (Some v)). simpl. now rewrite Hv.
Qed.

Lemma chdirMatch_suffix pre :
  noEquals pre = true -> chdirMatch (pre ++ "-chdir") = Some None.
Proof.
  intros Hpre.
  destruct (chdirMatch_found "" None eq_refl pre) as [g Hg].
  rewrite append_empty_r in Hg. rewrite Hg. f_equal.
  destruct g as [v|]; [|reflexivity].
  apply chdirMatch_inv in Hg. destruct Hg as (pre' & t & E & Ht).
  apply chdirTail_inv in Ht.
  destruct Ht as [[_ Hg]|(v' & -> & _ & _)]; [discriminate|].
  apply (f_equal noEquals) in E.
  rewrite !noEquals_append, Hpre in E. simpl in E.
  rewrite andb_false_r in E. discriminate.
Qed.

Lemma chdirLoop_next_argument arg v rest :
  chdirMatch arg = Some None ->
  chdirLoop (arg :: v :: rest) None
  = if isValidString (JStr v) then chdirLoop rest (Some v)
    else panic "Invalid -chdir option".
Proof. intros H. simpl. rewrite H. reflexivity. Qed.

(** C9, as amended.  The flag is found by an unanchored match: an argument
    is taken for the flag exactly when it holds [-chdir] at its very end, or
    followed by [=] and then no line terminator up to the end of the
    argument.  An argument that ends in [-chdir] with no [=] before it, such
    as [--no-chdir] or [foo-chdir], matches with no embedded value, and the
    argument after it is then consumed as the working directory. *)
Theorem chdir_flag_unanchored :
  (forall arg, (exists g, chdirMatch arg = Some g) <-> chdirOccurs arg)
  /\ (forall pre, noEquals pre = true ->
        chdirMatch (pre ++ "-chdir") = Some None)
  /\ (forall arg v rest, chdirMatch arg = Some None ->
        chdirLoop (arg :: v :: rest) None
        = if isValidString (JStr v) then chdirLoop rest (Some v)
          else panic "Invalid -chdir option")
  /\ chdirMatch "--no-chdir" = Some None
  /\ chdirMatch "foo-chdir" = Some None.
Proof.
  split; [exact chdirMatch_iff|].
  split; [exact chdirMatch_suffix|].
  split; [exact chdirLoop_next_argument|].
  split; reflexivity.
Qed.

(** [--no-chdir /tmp/x] changes the working directory to [/tmp/x]. *)
Example workingDir_no_chdir :
  workingDirInit
    (Examples.world ["plan"; "--no-chdir"; "/tmp/x"] "/home/u" [] [] []
       (mkStatus 0 None))
  = ([], Ret "/tmp/x").
Proof. reflexivity. Qed.

(** What the claim takes for the flag: [-chdir] at the end of the argument,
    or followed by [=]. *)
Definition containsChdir (arg : string) : Prop :=
  exists pre t,
    arg = pre ++ "-chdir" ++ t /\ (t = "" \/ exists v, t = "=" ++ v).

(** C9 as stated fails on an argument whose value holds a line feed: it
    holds [-chdir] followed by [=], yet it does not match, and the working
    directory stays the current directory of the process. *)
Lemma chdir_line_feed_counterexample :
  let arg := "-chdir=/tmp/a" ++ nl ++ "b" in
  containsChdir arg
  /\ ~ (exists g, chdirMatch arg = Some g)
  /\ workingDirInit
       (Examples.world ["plan"; arg] "/home/u" [] [] [] (mkStatus 0 None))
     = ([], Ret "/home/u").
Proof.
  split; [|split].
  - exists "", ("=/tmp/a" ++ nl ++ "b"). split; [reflexivity|].
    right. exists ("/tmp/a" ++ nl ++ "b"). reflexivity.
  - intros [g H]. discriminate H.
  - reflexivity.
Qed.

End WorkingDir.

(* ===================================================================== *)
(** * The execution role *)
(* ===================================================================== *)

Module Role.
Import Js Terrawrap.








(** C10.  A rule without a [prefix] field is tested against the text
    [undefined]: it matches exactly the keys that start with it. *)
Theorem absent_prefix_matches_undefined key fields :
  lookup "prefix" fields = None ->
  prefixMatches key (JObj fields) = true
  <-> exists rest, key = "undefined" ++ rest.
Proof.
  intros H. unfold prefixMatches, opt_member. rewrite H.
  change (to_string JUndefined) with "undefined". unfold startsWith. split.
  - apply prefix_split.
  - intros [rest ->]. apply prefix_append.
Qed.

Lemma absent_prefix_matches_undefined_witness :
  prefixMatches "undefined/network"
    (JObj [("aws_execution_role", JStr "arn:aws:iam::111:role/x")]) = true
  <-> exists rest, "undefined/network" = "undefined" ++ rest.
Proof.
  exact (absent_prefix_matches_undefined "undefined/network"
           [("aws_execution_role", JStr "arn:aws:iam::111:role/x")] eq_refl).
Defined.

(** Such a rule does not match every key, and it is not skipped either. *)
Example absent_prefix_runs :
  let o := JObj [("aws_execution_role", JStr "arn:aws:iam::111:role/x")] in
  executionRoleLoop "sub" [o] (JStr "") = JStr ""
  /\ executionRoleLoop "undefined/network" [o] (JStr "")
     = JStr "arn:aws:iam::111:role/x".
Proof. split; reflexivity. Qed.

End Role.

(* ===================================================================== *)
(** * The generated file *)
(* ===================================================================== *)

Module Content.
Import Js Terrawrap.














End Content.

(* ===================================================================== *)
(** * The subprocess runner *)
(* ===================================================================== *)

Module Runner.
Import Js Terrawrap Loader.

(** The exit status that [terraform] computes from the status of the
    subprocess. *)
Definition statusCode (status : ProcessStatus) : Z :=
  match signal status with
  | None => code status
  | Some _ => 1%Z
  end.

Lemma terraformBody_eq w tb rb :
  terraformBody w (Some (tb, rb))
  = match rb with
    | Ret _ =>
        if envIs w "TERRAWRAP_NO_TERRAFORM" "true" then (tb, Ret 0%Z)
        else ((tb ++ [Run ("terraform" :: args w)])%list,
              match run w ("terraform" :: args w) with
              | inl e => Throw e
              | inr status => Ret (statusCode status)
              end)
    | Throw e => (tb, Throw e)
    | Exit c => (tb, Exit c)
    end.
Proof.
  unfold terraformBody, call_hook, deno_run, statusCode.
  destruct rb as [[]|e|c]; simpl; try reflexivity.
  destruct (envIs w "TERRAWRAP_NO_TERRAFORM" "true"); simpl.
  - now rewrite app_nil_r.
  - destruct (run w ("terraform" :: args w)); reflexivity.
Qed.

Lemma terraform_no_hooks w :
  terraform w None None
  = if envIs w "TERRAWRAP_NO_TERRAFORM" "true" then ([], Ret 0%Z)
    else ([Run ("terraform" :: args w)],
          match run w ("terraform" :: args w) with
          | inl e => Throw e
          | inr status => Ret (statusCode status)
          end).
Proof.
  unfold terraform, terraformBody, call_hook, deno_run, statusCode.
  destruct (envIs w "TERRAWRAP_NO_TERRAFORM" "true"); simpl; [reflexivity|].
  destruct (run w ("terraform" :: args w)); reflexivity.
Qed.

Lemma log_returns w msg : log w msg = (trace (log w msg), Ret tt).
Proof. unfold log. destruct (envIs w "TERRAWRAP_LOG" "true"); reflexivity. Qed.

(** C6.  With a before-hook that does not end the process itself, the
    events of [terraform] are those of the before-hook, then the start of
    the subprocess if the before-hook returned and the override is not set,
    then those of the after-hook: the after-hook runs when the subprocess
    has been waited for, when starting it throws, when the before-hook
    throws, and when the override suppresses the subprocess. *)
Theorem after_hook_on_every_path w before after :
  (forall c, result before <> Exit c) ->
  trace (terraform w (Some before) (Some after))
  = (trace before
     ++ match result before with
        | Ret _ =>
            if envIs w "TERRAWRAP_NO_TERRAFORM" "true" then []
            else [Run ("terraform" :: args w)]
        | _ => []
        end
     ++ trace after)%list.
Proof.
  destruct before as [tb rb], after as [ta ra]. intros Hne.
  unfold terraform. rewrite terraformBody_eq. unfold call_hook.
  rewrite !result_pair, !trace_pair.
  destruct rb as [[]|e|c].
  - destruct (envIs w "TERRAWRAP_NO_TERRAFORM" "true").
    + reflexivity.
    + simpl. destruct (run w ("terraform" :: args w));
        simpl; now rewrite <- app_assoc.
  - reflexivity.
  - exfalso. exact (Hne c eq_refl).
Qed.

Lemma writeHook_no_exit w f content c :
  result (writeHook w f content) <> Exit c.
Proof.
  unfold writeHook. simpl. destruct (writeTextFile w f content); discriminate.
Qed.

(** The two hooks of the script in a world where the file cannot be
    written: the removal is still attempted. *)
Lemma after_hook_on_every_path_witness :
  let w :=
    {| args := ["plan"]; cwd := "/tmp/proj/sub"; env := fun _ => None;
       readTextFile := fun _ => inl Examples.notFound;
       parseYml := fun _ => inl "YAMLError";
       writeTextFile := fun _ _ => Some Examples.permissionDenied;
       remove := fun _ => Some Examples.notFound;
       run := fun _ => inr (mkStatus 0 None) |} in
  trace (terraform w
           (Some (writeHook w "/tmp/proj/sub/00_generated.tf" "content"))
           (Some (cleanupHook w "/tmp/proj/sub/00_generated.tf")))
  = [WriteTextFile "/tmp/proj/sub/00_generated.tf" "content";
     Remove "/tmp/proj/sub/00_generated.tf"].
Proof.
  intros w.
  exact (after_hook_on_every_path w
           (writeHook w "/tmp/proj/sub/00_generated.tf" "content")
           (cleanupHook w "/tmp/proj/sub/00_generated.tf")
           (writeHook_no_exit w "/tmp/proj/sub/00_generated.tf" "content")).
Defined.

(** A hook that is absent, or that returns. *)
Definition returns (h : option (IO unit)) : Prop :=
  match h with
  | None => True
  | Some m => result m = Ret tt
  end.

(** C7.  With hooks that return, [terraform] returns 0 when the override is
    set, and then its events are those of the hooks alone; otherwise it
    returns the exit code of the subprocess when that ended without a
    signal, and 1 when a signal ended it.  The script exits with the status
    that [terraform] returns. *)
Theorem terraform_exit_status w before after :
  returns before -> returns after ->
  (envIs w "TERRAWRAP_NO_TERRAFORM" "true" = true ->
     terraform w before after
     = ((trace (call_hook before) ++ trace (call_hook after))%list, Ret 0%Z)
     /\ result (exitWithTerraform w before after) = Exit 0%Z)
  /\ (envIs w "TERRAWRAP_NO_TERRAFORM" "true" = false ->
      forall status, run w ("terraform" :: args w) = inr status ->
        let exitCode :=
          match signal status with
          | None => code status
          | Some _ => 1%Z
          end in
        result (terraform w before after) = Ret exitCode
        /\ result (exitWithTerraform w before after) = Exit exitCode).
Proof.
  intros Hb Ha.
  assert (Hb' : exists tb, call_hook before = (tb, Ret tt)).
  { destruct before as [[tb rb]|]; simpl in *.
    - exists tb. cbn in Hb. now subst.
    - now exists []. }
  assert (Ha' : exists ta, call_hook after = (ta, Ret tt)).
  { destruct after as [[ta ra]|]; simpl in *.
    - exists ta. cbn in Ha. now subst.
    - now exists []. }
  destruct Hb' as [tb Hb'], Ha' as [ta Ha'].
  unfold exitWithTerraform, terraform, terraformBody, deno_run.
  rewrite Hb', Ha'. split.
  - intros ->. simpl. rewrite !app_nil_r. split; reflexivity.
  - intros -> status ->. simpl. split; reflexivity.
Qed.

(** A subprocess that a signal ends, between the two hooks of the script:
    the status is 1. *)
Lemma terraform_exit_status_witness :
  let w := Examples.killedWorld in
  let before := Some (writeHook w "/tmp/proj/sub/00_generated.tf" "content") in
  let after := Some (cleanupHook w "/tmp/proj/sub/00_generated.tf") in
  result (terraform w before after) = Ret 1%Z
  /\ result (exitWithTerraform w before after) = Exit 1%Z.
Proof.
  intros w before after.
  exact (proj2 (terraform_exit_status w before after eq_refl eq_refl)
           eq_refl (mkStatus 137 (Some 9%Z)) eq_refl).
Defined.

(** C5, as amended.  When the working directory resolves and every
    candidate up to the root is missing, the script reads the candidates,
    logs if asked to, writes no file, and then: with the override set it
    starts nothing and exits with status 0; otherwise it starts [terraform]
    with the arguments of the process unchanged, and exits with the code of
    the subprocess when that ended without a signal, with 1 when a signal
    ended it, and with the error when it could not be started. *)
Theorem no_config_runs_terraform w wd :
  workingDirInit w = ([], Ret wd) ->
  forallb (isMissing w) (allPossibleConfigLocation wd) = true ->
  main w
  = (if envIs w "TERRAWRAP_NO_TERRAFORM" "true"
     then ((map ReadTextFile (allPossibleConfigLocation wd)
            ++ trace (log w "No config found"))%list,
           Exit 0%Z)
     else ((map ReadTextFile (allPossibleConfigLocation wd)
            ++ trace (log w "No config found")
            ++ [Run ("terraform" :: args w)])%list,
           match run w ("terraform" :: args w) with
           | inl e => Throw e
           | inr status => Exit (statusCode status)
           end))
  /\ forall f content, ~ In (WriteTextFile f content) (trace (main w)).
Proof.
  intros Hwd Hmissing.
  assert (Hmain :
    main w
    = (if envIs w "TERRAWRAP_NO_TERRAFORM" "true"
       then ((map ReadTextFile (allPossibleConfigLocation wd)
              ++ trace (log w "No config found"))%list,
             Exit 0%Z)
       else ((map ReadTextFile (allPossibleConfigLocation wd)
              ++ trace (log w "No config found")
              ++ [Run ("terraform" :: args w)])%list,
             match run w ("terraform" :: args w) with
             | inl e => Throw e
             | inr status => Exit (statusCode status)
             end))).
  { unfold main. rewrite Hwd. change ([], Ret wd) with (ret wd).
    rewrite bind_ret_l. unfold loadConfig.
    rewrite (loadConfigFrom_all_missing w wd _ Hmissing).
    unfold exitWithTerraform. rewrite terraform_no_hooks.
    rewrite (log_returns w "No config found").
    destruct (envIs w "TERRAWRAP_NO_TERRAFORM" "true"); simpl.
    - now rewrite app_nil_r.
    - destruct (run w ("terraform" :: args w)); simpl;
        now rewrite ?app_nil_r. }
  split; [exact Hmain|].
  intros f content Hin. rewrite Hmain in Hin.
  assert (Hlog : ~ In (WriteTextFile f content) (trace (log w "No config found"))).
  { unfold log. destruct (envIs w "TERRAWRAP_LOG" "true"); simpl.
    - intros [H|[]]. discriminate.
    - tauto. }
  assert (Hreads : ~ In (WriteTextFile f content)
                     (map ReadTextFile (allPossibleConfigLocation wd))).
  { intros H. apply in_map_iff in H. destruct H as (x & H & _). discriminate. }
  destruct (envIs w "TERRAWRAP_NO_TERRAFORM" "true");
    rewrite trace_pair in Hin; rewrite !in_app_iff in Hin.
  - tauto.
  - destruct Hin as [H|[H|[H|[]]]]; [tauto|tauto|discriminate].
Qed.

(** No configuration file, a subprocess that exits with code 3. *)
Lemma no_config_runs_terraform_witness :
  main (Examples.bareWorld [])
  = ([ReadTextFile "/srv/app/wrapper-config.yml";
      ReadTextFile "/srv/app/wrapper-config.yaml";
      ReadTextFile "/srv/wrapper-config.yml";
      ReadTextFile "/srv/wrapper-config.yaml";
      ReadTextFile "/wrapper-config.yml";
      ReadTextFile "/wrapper-config.yaml";
      Run ["terraform"; "plan"; "-input=false"]],
     Exit 3%Z).
Proof.
  exact (proj1 (no_config_runs_terraform (Examples.bareWorld []) "/srv/app"
                  eq_refl eq_refl)).
Defined.

(** C5 as stated fails when the override is set: no candidate exists, and
    the script neither starts the subprocess nor takes its exit code. *)
Lemma no_config_override_counterexample :
  let w := Examples.bareWorld [("TERRAWRAP_NO_TERRAFORM", "true")] in
  workingDirInit w = ([], Ret "/srv/app")
  /\ forallb (isMissing w) (allPossibleConfigLocation "/srv/app") = true
  /\ ~ In (Run ("terraform" :: args w)) (trace (main w))
  /\ result (main w) = Exit 0%Z
  /\ run w ("terraform" :: args w) = inr (mkStatus 3 None).
Proof.
  repeat split; try reflexivity.
  vm_compute. intuition discriminate.
Qed.

(** C7 as stated fails when a hook throws: with the override set and a
    generated file that cannot be written, [terraform] does not return 0
    but throws, and the script ends with that error. *)
Lemma terraform_hook_failure_counterexample :
  let w := Examples.readOnlyWorld in
  let before := Some (writeHook w "/tmp/proj/sub/00_generated.tf" "content") in
  let after := Some (cleanupHook w "/tmp/proj/sub/00_generated.tf") in
  envIs w "TERRAWRAP_NO_TERRAFORM" "true" = true
  /\ result (terraform w before after) <> Ret 0%Z
  /\ result (main w) = Throw Examples.notFound.
Proof.
  split; [reflexivity|]. split; [discriminate|reflexivity].
Qed.

End Runner.

(* ===================================================================== *)
(** * Runs on concrete inputs *)
(* ===================================================================== *)

Module Scenarios.
Import Js Terrawrap.

Example dirname_of_candidate :
  Path.dirname "/a/b/wrapper-config.yml" = "/a/b"
  /\ Path.dirname "/wrapper-config.yml" = "/"
  /\ Path.dirname "/" = "/".
Proof. repeat split. Qed.

Example join_of_candidate :
  Path.join "/" "wrapper-config.yml" = "/wrapper-config.yml"
  /\ Path.join "/a/b" "wrapper-config.yml" = "/a/b/wrapper-config.yml".
Proof. repeat split. Qed.

Example resolve_relative :
  Path.resolve "/home/u" "../x/./y/" = "/home/x/y"
  /\ Path.resolve "/home/u" "/" = "/".
Proof. repeat split. Qed.

Example candidates_of_sub :
  allPossibleConfigLocation "/tmp/proj/sub"
  = ["/tmp/proj/sub/wrapper-config.yml"; "/tmp/proj/sub/wrapper-config.yaml";
     "/tmp/proj/wrapper-config.yml"; "/tmp/proj/wrapper-config.yaml";
     "/tmp/wrapper-config.yml"; "/tmp/wrapper-config.yaml";
     "/wrapper-config.yml"; "/wrapper-config.yaml"].
Proof. reflexivity. Qed.

(** The scenario of the specification: the key is [sub], the role is that
    of the one rule, the file is written into the working directory, the
    subprocess gets the arguments as they are, and the file is removed. *)
Example scenario_chdir :
  main Examples.projWorld
  = ([ReadTextFile "/tmp/proj/sub/wrapper-config.yml";
      ReadTextFile "/tmp/proj/sub/wrapper-config.yaml";
      ReadTextFile "/tmp/proj/wrapper-config.yml";
      WriteTextFile "/tmp/proj/sub/00_generated.tf"
        (generatedContent (JStr "arn:aws:iam::111:role/state")
           (JStr "eu-west-1") (JStr "tfstate") (JStr "tflock") "sub"
           (JStr "arn:aws:iam::111:role/x"));
      Run ["terraform"; "plan"; "-chdir=/tmp/proj/sub"];
      Remove "/tmp/proj/sub/00_generated.tf"],
     Exit 0%Z).
Proof. reflexivity. Qed.

(** Directly below the root the key is empty and the script refuses the
    working directory. *)
Example scenario_below_root :
  main (Examples.world ["plan"] "/a" []
          [("/wrapper-config.yml", inr "root.yml")]
          [("root.yml", Examples.document [Examples.rule "a" "arn:aws:iam::111:role/x"])]
          (mkStatus 0 None))
  = ([ReadTextFile "/a/wrapper-config.yml";
      ReadTextFile "/a/wrapper-config.yaml";
      ReadTextFile "/wrapper-config.yml";
      ConsoleError
        "Working directory must be in subdirectory of config file /wrapper-config.yml"],
     Exit 1%Z).
Proof. reflexivity. Qed.

End Scenarios.

(* ===================================================================== *)
(** * The working directory, flag by flag *)
(* ===================================================================== *)

Module Resolver.
Import Js Terrawrap Resolved WorkingDir.

(** The argument matches [chdirRe]. *)
Definition isFlag (arg : string) : bool :=
  match chdirMatch arg with
  | Some _ => true
  | None => false
  end.

Definition noFlag (argv : list string) : bool :=
  forallb (fun arg => negb (isFlag arg)) argv.

Lemma chdirLoop_skip pre :
  noFlag pre = true ->
  forall rest cwd, chdirLoop (pre ++ rest) cwd = chdirLoop rest cwd.
Proof.
  unfold noFlag, isFlag.
  induction pre as [|arg pre IH]; intros H rest cwd; [reflexivity|].
  simpl in H. apply andb_true_iff in H. destruct H as [Harg Hpre].
  simpl. destruct (chdirMatch arg); [discriminate|]. now apply IH.
Qed.

Lemma chdirLoop_plain argv cwd :
  noFlag argv = true -> chdirLoop argv cwd = ret cwd.
Proof.
  intros H. rewrite <- (app_nil_r argv). now rewrite chdirLoop_skip.
Qed.

Lemma chdirMatch_embedded v :
  noLineTerminator v = true ->
  chdirMatch ("-chdir=" ++ v) = Some (Some v)
  /\ chdirMatch ("--chdir=" ++ v) = Some (Some v).
Proof.
  intros Hv.
  assert (Hat : chdirAt ("-chdir=" ++ v) = Some (Some v)).
  { change ("-chdir=" ++ v) with ("-chdir" ++ ("=" ++ v)).
    rewrite chdirAt_append. simpl. now rewrite Hv. }
  split.
  - change (chdirMatch ("-chdir=" ++ v))
      with (match chdirAt ("-chdir=" ++ v) with
            | Some g => Some g
            | None => chdirMatch ("chdir=" ++ v)
            end).
    now rewrite Hat.
  - change (chdirMatch ("--chdir=" ++ v))
      with (match
              match chdirAt ("-chdir=" ++ v) with
              | Some g => Some g
              | None => chdirAt ("--chdir=" ++ v)
              end
            with
            | Some g => Some g
            | None => chdirMatch ("-chdir=" ++ v)
            end).
    now rewrite Hat.
Qed.

(** X7.  A second flag is an error, whatever its form; without one the value
    already found is kept. *)
Theorem chdirLoop_second_flag argv v :
  chdirLoop argv (Some v)
  = if noFlag argv then ret (Some v)
    else panic "Invalid multiple -chdir option".
Proof.
  unfold noFlag, isFlag. induction argv as [|arg rest IH]; [reflexivity|].
  simpl. destruct (chdirMatch arg); simpl; [reflexivity|exact IH].
Qed.

Lemma chdirLoop_embedded arg v rest :
  chdirMatch arg = Some (Some v) ->
  chdirLoop (arg :: rest) None
  = if isValidString (JStr v) then chdirLoop rest (Some v)
    else panic "Invalid -chdir option".
Proof. intros H. simpl. rewrite H. reflexivity. Qed.

(** X4.  The flag with its value in the same argument, [-chdir=v] or
    [--chdir=v], once on the command line: the working directory is [v]
    resolved against the current directory. *)
Theorem workingDir_embedded_value w pre dash v post :
  args w = (pre ++ (dash ++ "-chdir=" ++ v)%string :: post)%list ->
  dash = "" \/ dash = "-" ->
  noFlag pre = true -> noFlag post = true ->
  v <> "" -> noLineTerminator v = true ->
  workingDirInit w = ([], Ret (Path.resolve (cwd w) v)).
Proof.
  intros Hargs Hdash Hpre Hpost Hv Hlt.
  destruct (chdirMatch_embedded v Hlt) as [H1 H2].
  assert (Hm : chdirMatch (dash ++ "-chdir=" ++ v) = Some (Some v)).
  { destruct Hdash as [->| ->]; assumption. }
  unfold workingDirInit. rewrite Hargs, (chdirLoop_skip pre Hpre).
  rewrite (chdirLoop_embedded _ v post Hm).
  destruct v as [|c v]; [contradiction|]. simpl isValidString. cbv iota.
  rewrite chdirLoop_second_flag, Hpost. reflexivity.
Qed.

Lemma workingDir_embedded_value_witness :
  workingDirInit Examples.projWorld = ([], Ret "/tmp/proj/sub").
Proof.
  exact (workingDir_embedded_value Examples.projWorld ["plan"] "" "/tmp/proj/sub"
           [] eq_refl (or_introl eq_refl) eq_refl eq_refl
           (fun E => eq_ind "/tmp/proj/sub"
                       (fun s => match s with
                                 | EmptyString => False
                                 | String _ _ => True
                                 end) I "" E)
           eq_refl).
Defined.

(** X5.  When the first argument that matches is the flag alone, [-chdir]
    or [--chdir], the argument after it is not empty, and no argument
    behind that one matches: the argument after the flag is taken as the
    value without being looked at, also when it looks like a flag itself,
    and the working directory is that value resolved against the current
    directory. *)
Theorem workingDir_next_argument w pre flag v post :
  args w = (pre ++ flag :: v :: post)%list ->
  flag = "-chdir" \/ flag = "--chdir" ->
  noFlag pre = true -> noFlag post = true ->
  v <> "" ->
  workingDirInit w = ([], Ret (Path.resolve (cwd w) v)).
Proof.
  intros Hargs Hflag Hpre Hpost Hv.
  assert (Hm : chdirMatch flag = Some None)
    by (destruct Hflag as [->| ->]; reflexivity).
  unfold workingDirInit. rewrite Hargs, (chdirLoop_skip pre Hpre).
  rewrite (chdirLoop_next_argument flag v post Hm).
  destruct v as [|c v]; [contradiction|]. simpl isValidString. cbv iota.
  rewrite chdirLoop_second_flag, Hpost. reflexivity.
Qed.

(** [-chdir -chdir=/x plan]: the second argument is the value. *)
Lemma workingDir_next_argument_witness :
  workingDirInit
    (Examples.world ["-chdir"; "-chdir=/x"; "plan"] "/home/u" [] [] []
       (mkStatus 0 None))
  = ([], Ret "/home/u/-chdir=/x").
Proof.
  exact (workingDir_next_argument
           (Examples.world ["-chdir"; "-chdir=/x"; "plan"] "/home/u" [] [] []
              (mkStatus 0 None))
           [] "-chdir" "-chdir=/x" ["plan"] eq_refl (or_introl eq_refl)
           eq_refl eq_refl
           (fun E => eq_ind "-chdir=/x"
                       (fun s => match s with
                                 | EmptyString => False
                                 | String _ _ => True
                                 end) I "" E)).
Defined.



(** *** What [path.resolve] returns *)

Lemma split_noSep p : forallb noSep (Path.split p) = true.
Proof.
  induction p as [|c p IH]; [reflexivity|].
  simpl. destruct (Ascii.eqb c Path.sep) eqn:E; [exact IH|].
  destruct (Path.split p) as [|seg segs]; simpl in *.
  - now rewrite E.
  - apply andb_true_iff in IH. destruct IH as [H1 H2].
    now rewrite E, H1, H2.
Qed.

Lemma normalizeSegments_ok l :
  forall acc,
    forallb noSep l = true -> forallb segmentOk acc = true ->
    forallb segmentOk (Path.normalizeSegments false l acc) = true.
Proof.
  induction l as [|s l IH]; intros acc Hl Hacc; simpl.
  - rewrite forallb_forall in *. intros x Hx. apply Hacc.
    now apply in_rev.
  - simpl in Hl. apply andb_true_iff in Hl. destruct Hl as [Hs Hl].
    destruct (String.eqb s "") eqn:E0; [now apply IH|].
    destruct (String.eqb s ".") eqn:E1; [now apply IH|].
    destruct (String.eqb s "..") eqn:E2.
    + destruct acc as [|top acc']; [now apply IH|].
      simpl in Hacc. apply andb_true_iff in Hacc. destruct Hacc as [Ht Hacc'].
      destruct (String.eqb top ".."); apply IH; simpl; try assumption.
      now rewrite Ht, Hacc'.
    + apply IH; [assumption|]. simpl. rewrite Hacc, andb_true_r.
      unfold segmentOk. now rewrite E0, E1, E2, Hs.
Qed.

Lemma resolve_resolved cwd p :
  exists segs,
    forallb segmentOk segs = true /\ Path.resolve cwd p = absPath segs.
Proof.
  unfold Path.resolve, Path.normalizeString.
  eexists. split; [|reflexivity].
  apply normalizeSegments_ok; [apply split_noSep|reflexivity].
Qed.

(** X2.  Whenever the working directory is computed it is a resolved path: a
    slash followed by segments that are not empty, hold no slash and are
    neither [.] nor [..], whatever the flag's value and the current
    directory are. *)
Theorem workingDir_is_resolved w wd :
  result (workingDirInit w) = Ret wd ->
  exists segs, forallb segmentOk segs = true /\ wd = absPath segs.
Proof.
  unfold workingDirInit.
  destruct (chdirLoop (args w) None) as [t [chdir|e|c]]; simpl;
    try discriminate.
  intros H. injection H as <-. apply resolve_resolved.
Qed.

(** [-chdir=../x/./y/] from [/home/u]. *)
Lemma workingDir_is_resolved_witness :
  exists segs,
    forallb segmentOk segs = true /\ "/home/x/y" = absPath segs.
Proof.
  exact (workingDir_is_resolved
           (Examples.world ["-chdir=../x/./y/"] "/home/u" [] [] []
              (mkStatus 0 None))
           "/home/x/y" eq_refl).
Defined.

Lemma normalizeString_resolved segs :
  forallb segmentOk segs = true ->
  Path.normalizeString (absPath segs) false = String.concat "/" segs.
Proof.
  intros Hok. unfold Path.normalizeString. f_equal.
  destruct segs as [|x segs]; [reflexivity|].
  rewrite absPath_cons. simpl in Hok. apply andb_true_iff in Hok.
  destruct Hok as [Hx Hrest].
  pose proof (segmentOk_inv _ Hx) as (_ & _ & _ & Hsep).
  change (slashed (x :: segs)) with (String Path.sep (x ++ slashed segs)).
  change (Path.split (String Path.sep (x ++ slashed segs)))
    with (EmptyString :: Path.split (x ++ slashed segs)).
  rewrite (split_slashed segs x Hsep Hrest).
  rewrite normalizeSegments_plain.
  - change (rev [] ++ filter nonEmpty (EmptyString :: x :: segs))%list
      with (filter nonEmpty (x :: segs)).
    apply filter_nonEmpty_ok. simpl. now rewrite Hx, Hrest.
  - change (forallb (fun s => String.eqb s "" || segmentOk s)
              (EmptyString :: x :: segs))
      with (forallb (fun s => String.eqb s "" || segmentOk s) (x :: segs)).
    apply forallb_weaken. simpl. now rewrite Hx, Hrest.
Qed.

(** A value that is already a resolved path becomes the working directory
    as it is, whatever the current directory. *)
Theorem resolve_keeps_resolved cwd segs :
  forallb segmentOk segs = true ->
  Path.resolve cwd (absPath segs) = absPath segs.
Proof.
  intros Hok. unfold Path.resolve.
  change (String.eqb (absPath segs) "") with false.
  change (Path.isAbsolute (absPath segs)) with true. cbv iota.
  now rewrite normalizeString_resolved.
Qed.

Lemma resolve_keeps_resolved_witness :
  Path.resolve "/home/u" "/tmp/proj/sub" = "/tmp/proj/sub".
Proof.
  exact (resolve_keeps_resolved "/home/u" ["tmp"; "proj"; "sub"] eq_refl).
Defined.

(** X3.  Without a flag the working directory is the current directory of
    the process. *)
Theorem workingDir_default w segs :
  noFlag (args w) = true ->
  cwd w = absPath segs ->
  forallb segmentOk segs = true ->
  workingDirInit w = ([], Ret (cwd w)).
Proof.
  intros Hargs Hcwd Hok. unfold workingDirInit.
  rewrite (chdirLoop_plain (args w) None Hargs), bind_ret_l.
  rewrite Hcwd. now rewrite resolve_keeps_resolved.
Qed.

Lemma workingDir_default_witness :
  workingDirInit Examples.rootWorld = ([], Ret "/a/b").
Proof.
  exact (workingDir_default Examples.rootWorld ["a"; "b"] eq_refl eq_refl
           eq_refl).
Defined.

End Resolver.

(* ===================================================================== *)
(** * The scan for a configuration file *)
(* ===================================================================== *)

Module Scan.
Import Js Terrawrap Resolved Candidates Loader.

Lemma candidatesUp_length rsegs :
  List.length (candidatesUp rsegs) = 2 * S (List.length rsegs).
Proof.
  induction rsegs as [|s rsegs IH]; [reflexivity|].
  rewrite candidatesUp_unfold. simpl List.length. rewrite IH. lia.
Qed.

Lemma candidatesUp_last rsegs :
  exists front,
    candidatesUp rsegs
    = (front ++ ["/wrapper-config.yml"; "/wrapper-config.yaml"])%list.
Proof.
  induction rsegs as [|s rsegs IH].
  - now exists [].
  - destruct IH as [front IH]. rewrite candidatesUp_unfold, IH.
    eexists (_ :: _ :: front). reflexivity.
Qed.

(** X8.  From a resolved directory of [n] segments the generator yields
    [2(n+1)] candidates: the [.yml] and then the [.yaml] file of the
    directory itself, then those of each directory above it, and last those
    of the root. *)
Theorem candidates_of_resolved segs :
  forallb segmentOk segs = true ->
  allPossibleConfigLocation (absPath segs) = candidatesUp (rev segs)
  /\ List.length (allPossibleConfigLocation (absPath segs))
     = 2 * S (List.length segs)
  /\ exists front,
       allPossibleConfigLocation (absPath segs)
       = (front ++ ["/wrapper-config.yml"; "/wrapper-config.yaml"])%list.
Proof.
  intros Hok. rewrite (allPossibleConfigLocation_absPath segs Hok).
  split; [reflexivity|]. split.
  - now rewrite candidatesUp_length, length_rev.
  - apply candidatesUp_last.
Qed.

Lemma candidates_of_resolved_witness :
  allPossibleConfigLocation "/tmp/proj"
  = ["/tmp/proj/wrapper-config.yml"; "/tmp/proj/wrapper-config.yaml";
     "/tmp/wrapper-config.yml"; "/tmp/wrapper-config.yaml";
     "/wrapper-config.yml"; "/wrapper-config.yaml"].
Proof.
  exact (proj1 (candidates_of_resolved ["tmp"; "proj"] eq_refl)).
Defined.

Lemma loadConfigFrom_skip w wd l1 :
  forallb (isMissing w) l1 = true ->
  forall l2,
    loadConfigFrom w wd (l1 ++ l2)
    = ((map ReadTextFile l1 ++ trace (loadConfigFrom w wd l2))%list,
       result (loadConfigFrom w wd l2)).
Proof.
  induction l1 as [|f l1 IH]; intros H l2.
  - simpl. now destruct (loadConfigFrom w wd l2).
  - simpl in H. apply andb_true_iff in H. destruct H as [Hf Hl].
    change ((f :: l1) ++ l2)%list with (f :: (l1 ++ l2))%list.
    rewrite (loadConfigFrom_missing w wd f _ Hf), (IH Hl l2).
    reflexivity.
Qed.

Lemma loadConfigFrom_existing w wd f rest rest' :
  isMissing w f = false ->
  loadConfigFrom w wd (f :: rest) = loadConfigFrom w wd (f :: rest').
Proof.
  unfold isMissing. intros H. simpl. unfold tryReadParse.
  destruct (readTextFile w f) as [e|text].
  - rewrite H. reflexivity.
  - destruct (parseYml w text); reflexivity.
Qed.

(** X9.  The first candidate that exists decides the outcome, whether it is
    valid or not: nothing of what comes after it in the scan matters.  So
    [wrapper-config.yml] hides [wrapper-config.yaml] in its directory, and a
    directory with a candidate hides every directory above it. *)
Theorem first_existing_candidate_decides w wd missing f rest rest' :
  forallb (isMissing w) missing = true ->
  isMissing w f = false ->
  loadConfigFrom w wd (missing ++ f :: rest)
  = loadConfigFrom w wd (missing ++ f :: rest').
Proof.
  intros Hmissing Hf.
  rewrite !(loadConfigFrom_skip w wd missing Hmissing).
  now rewrite (loadConfigFrom_existing w wd f rest rest' Hf).
Qed.

(** In [brokenWorld] the scan from [/srv/app] is the scan of its first
    candidate alone. *)
Lemma first_existing_candidate_decides_witness :
  loadConfigFrom Examples.brokenWorld "/srv/app"
    ["/srv/app/wrapper-config.yml"; "/srv/app/wrapper-config.yaml";
     "/srv/wrapper-config.yml"]
  = loadConfigFrom Examples.brokenWorld "/srv/app"
      ["/srv/app/wrapper-config.yml"].
Proof.
  exact (first_existing_candidate_decides Examples.brokenWorld "/srv/app" []
           "/srv/app/wrapper-config.yml"
           ["/srv/app/wrapper-config.yaml"; "/srv/wrapper-config.yml"] []
           eq_refl eq_refl).
Defined.

Lemma caught_notFound_missing w f e :
  tryReadParse w f = inl e -> isNotFound e = true -> isMissing w f = true.
Proof.
  unfold tryReadParse, isMissing.
  destruct (readTextFile w f) as [e'|text].
  - intros H. injection H as ->. trivial.
  - destruct (parseYml w text); [|discriminate].
    intros H. injection H as <-. discriminate.
Qed.

(** X10.  The three ways a scan ends.  It reads the candidates in order and
    stops at the first that exists; it returns nothing when all are missing;
    what it returns is the candidate read last, with the working directory
    it was given and a document that passes the validation; and every
    failure is one message followed by status 1.  It never throws, and it
    does nothing but read. *)
Theorem loadConfigFrom_outcome w wd candidates :
  (forallb (isMissing w) candidates = true
   /\ loadConfigFrom w wd candidates
      = (map ReadTextFile candidates, Ret None))
  \/ (exists n config,
        forallb (isMissing w) (firstn n candidates) = true
        /\ nth_error candidates n = Some (file config)
        /\ workingDir config = wd
        /\ validationErrors (Terrawrap.config config) = []
        /\ loadConfigFrom w wd candidates
           = (map ReadTextFile (firstn (S n) candidates), Ret (Some config)))
  \/ (exists n msg,
        forallb (isMissing w) (firstn n candidates) = true
        /\ n < List.length candidates
        /\ loadConfigFrom w wd candidates
           = ((map ReadTextFile (firstn (S n) candidates)
               ++ [ConsoleError msg])%list,
              Exit 1%Z)).
Proof.
  induction candidates as [|f rest IH].
  - left. split; reflexivity.
  - destruct (tryReadParse w f) as [e|parsed] eqn:Hp.
    + destruct (isNotFound e) eqn:Hnf.
      * pose proof (caught_notFound_missing w f e Hp Hnf) as Hf.
        rewrite (loadConfigFrom_missing w wd f rest Hf).
        destruct IH as [[Hall ->]|[(n & config & Hm & Hn & Hwd & Hv & ->)
                                  |(n & msg & Hm & Hn & ->)]].
        -- left. simpl. rewrite Hf, Hall. split; reflexivity.
        -- right. left. exists (S n), config.
           repeat split; try assumption.
           simpl. now rewrite Hf, Hm.
        -- right. right. exists (S n), msg.
           repeat split; [simpl; now rewrite Hf, Hm|simpl; lia].
      * right. right. exists 0. eexists. split; [reflexivity|].
        split; [simpl; lia|]. simpl. rewrite Hp, Hnf. reflexivity.
    + destruct (validationErrors parsed) as [|err errs] eqn:Hv.
      * right. left.
        exists 0, {| file := f;
                     workingDir := wd;
                     key := slice (String.length (Path.dirname f) + 1) wd;
                     config := parsed |}.
        rewrite (loadConfigFrom_found w wd f rest parsed Hp Hv).
        repeat split. exact Hv.
      * right. right. exists 0. eexists. split; [reflexivity|].
        split; [simpl; lia|]. simpl. rewrite Hp, Hv. reflexivity.
Qed.

(** X1.  Below a configuration directory that is not the root, the key is
    the path of the working directory relative to that directory: its
    segments joined by slashes.  The directory of the configuration file, a
    slash and the key spell the working directory. *)
Theorem key_is_relative_path w base rel name parsed :
  forallb segmentOk (base ++ rel) = true ->
  base <> [] -> rel <> [] ->
  (forall pre suf, rel = (pre ++ suf)%list -> pre <> [] ->
     isMissing w (absPath (base ++ pre ++ ["wrapper-config.yml"])) = true
     /\ isMissing w (absPath (base ++ pre ++ ["wrapper-config.yaml"])) = true) ->
  name = "wrapper-config.yml"
  \/ (name = "wrapper-config.yaml"
      /\ isMissing w (absPath (base ++ ["wrapper-config.yml"])) = true) ->
  tryReadParse w (absPath (base ++ [name])) = inr parsed ->
  validationErrors parsed = [] ->
  exists found,
    result (loadConfig w (absPath (base ++ rel))) = Ret (Some found)
    /\ file found = absPath (base ++ [name])
    /\ key found = String.concat "/" rel
    /\ Path.dirname (file found) ++ "/" ++ key found = workingDir found.
Proof.
  intros Hok Hbase Hrel Hcloser Hname Hparsed Hvalid.
  eexists. split.
  - exact (loadConfig_key_relative w base rel name parsed Hok Hbase Hrel
             Hcloser Hname Hparsed Hvalid).
  - split; [reflexivity|]. split; [reflexivity|]. simpl.
    rewrite forallb_app in Hok. apply andb_true_iff in Hok.
    destruct Hok as [Hb _].
    rewrite dirname_snoc;
      [|assumption|destruct Hname as [->|[-> _]]; reflexivity].
    rewrite (absPath_app base rel Hbase).
    destruct rel as [|x rel]; [contradiction|].
    now rewrite concat_cons.
Qed.

(** The scenario of the specification. *)
Lemma key_is_relative_path_witness :
  exists found,
    result (loadConfig Examples.projWorld "/tmp/proj/sub") = Ret (Some found)
    /\ file found = "/tmp/proj/wrapper-config.yml"
    /\ key found = "sub"
    /\ Path.dirname (file found) ++ "/" ++ key found = workingDir found.
Proof.
  apply (key_is_relative_path Examples.projWorld ["tmp"; "proj"] ["sub"]
           "wrapper-config.yml"
           (Examples.document [Examples.rule "sub" "arn:aws:iam::111:role/x"])).
  - reflexivity.
  - discriminate.
  - discriminate.
  - intros pre suf E Hpre.
    destruct pre as [|x [|y pre]]; [contradiction| |];
      inversion E; subst; split; reflexivity.
  - left. reflexivity.
  - reflexivity.
  - reflexivity.
Defined.

Lemma substring_none s : forall n, substring n 0 s = "".
Proof.
  induction s as [|c s IH]; intros [|n]; simpl; try reflexivity. apply IH.
Qed.

Lemma slice_beyond n s : String.length s <= n -> slice n s = "".
Proof.
  intros H. unfold slice.
  replace (String.length s - n) with 0 by lia. apply substring_none.
Qed.

Lemma bind_returned {A B} (t : list Event) (a : A) (f : A -> IO B) :
  bind (t, Ret a) f = ((t ++ trace (f a))%list, result (f a)).
Proof. simpl. now destruct (f a). Qed.

(** X11.  A configuration file in the working directory itself is found, the
    key is empty, and the script stops with its message about the
    subdirectory and status 1 before it resolves a role, writes a file or
    starts the subprocess.  This holds in the root directory too. *)
Theorem config_in_working_directory w segs name parsed :
  forallb segmentOk segs = true ->
  name = "wrapper-config.yml"
  \/ (name = "wrapper-config.yaml"
      /\ isMissing w (absPath (segs ++ ["wrapper-config.yml"])) = true) ->
  tryReadParse w (absPath (segs ++ [name])) = inr parsed ->
  validationErrors parsed = [] ->
  let found := {| file := absPath (segs ++ [name]);
                  workingDir := absPath segs;
                  key := "";
                  config := parsed |} in
  result (loadConfig w (absPath segs)) = Ret (Some found)
  /\ withConfig w found
     = ((trace (log w ("Config: " ++ file found))
         ++ trace (log w ("Working directory: " ++ workingDir found))
         ++ trace (log w "Key: ")
         ++ [ConsoleError
               ("Working directory must be in subdirectory of config file "
                  ++ file found)])%list,
        Exit 1%Z).
Proof.
  intros Hok Hname Hparsed Hvalid found. split.
  - pose proof (loadConfig_descendant w segs [] name parsed) as H.
    rewrite app_nil_r in H. rewrite H; try assumption.
    + unfold found. now rewrite slice_beyond by lia.
    + intros pre suf E Hpre. symmetry in E. apply app_eq_nil in E.
      destruct E as [-> _]. contradiction.
  - unfold withConfig.
    rewrite (Runner.log_returns w ("Config: " ++ file found)), bind_returned.
    rewrite (Runner.log_returns w ("Working directory: " ++ workingDir found)),
      bind_returned.
    rewrite (Runner.log_returns w ("Key: " ++ key found)), bind_returned.
    reflexivity.
Qed.

(** [/wrapper-config.yml] and the working directory [/]. *)
Lemma config_in_working_directory_witness :
  let w := Examples.world ["plan"] "/" []
             [("/wrapper-config.yml", inr "root.yml")]
             [("root.yml", Examples.document [])] (mkStatus 0 None) in
  let found := {| file := "/wrapper-config.yml";
                  workingDir := "/";
                  key := "";
                  config := Examples.document [] |} in
  result (loadConfig w "/") = Ret (Some found)
  /\ withConfig w found
     = ([ConsoleError
           "Working directory must be in subdirectory of config file /wrapper-config.yml"],
        Exit 1%Z).
Proof.
  intros w found.
  exact (config_in_working_directory w [] "wrapper-config.yml"
           (Examples.document []) eq_refl (or_introl eq_refl) eq_refl eq_refl).
Defined.

End Scan.

(* ===================================================================== *)
(** * From a configuration to the end of the script *)
(* ===================================================================== *)

Module Lifecycle.
Import Js Terrawrap Resolved Loader Role Content Runner.




(** With logging off, a key, a role and a rendered content, what is left of
    the script is the runner between the two hooks. *)
Lemma withConfig_runs w config role content :
  envIs w "TERRAWRAP_LOG" "true" = false ->
  key config <> "" ->
  executionRole config = ([], Ret role) ->
  renderContent config role = ([], Ret content) ->
  withConfig w config
  = exitWithTerraform w
      (Some (writeHook w (generatedFile config) content))
      (Some (cleanupHook w (generatedFile config))).
Proof.
  intros Hlog Hkey Hrole Hcontent. unfold withConfig, log.
  rewrite Hlog, !bind_ret_l.
  assert (Hvalid : isValidString (JStr (key config)) = true)
    by (destruct (key config); [contradiction|reflexivity]).
  rewrite Hvalid. simpl negb. cbv iota. rewrite bind_ret_l.
  rewrite Hrole. change ([], Ret role) with (@ret JsVal role).
  rewrite !bind_ret_l. rewrite Hcontent.
  change ([], Ret content) with (@ret string content).
  now rewrite !bind_ret_l.
Qed.

(** The events and the end of the script from the hooks on, for every
    outcome of the three system calls and every setting of the two
    overrides. *)
Lemma exitWithTerraform_hooks w f content :
  exitWithTerraform w (Some (writeHook w f content)) (Some (cleanupHook w f))
  = ((WriteTextFile f content
        :: match writeTextFile w f content with
           | Some _ => []
           | None =>
               if envIs w "TERRAWRAP_NO_TERRAFORM" "true" then []
               else [Run ("terraform" :: args w)]
           end
        ++ (if envIs w "TERRAWRAP_NO_CLEANUP" "true" then [] else [Remove f]))%list,
     match (if envIs w "TERRAWRAP_NO_CLEANUP" "true" then None
            else remove w f) with
     | Some e' => Throw e'
     | None =>
         match writeTextFile w f content with
         | Some e => Throw e
         | None =>
             if envIs w "TERRAWRAP_NO_TERRAFORM" "true" then Exit 0%Z
             else match run w ("terraform" :: args w) with
                  | inl e => Throw e
                  | inr status => Exit (statusCode status)
                  end
         end
     end).
Proof.
  unfold exitWithTerraform, terraform, terraformBody, call_hook, writeHook,
    cleanupHook, deno_run, statusCode.
  destruct (writeTextFile w f content);
    destruct (envIs w "TERRAWRAP_NO_TERRAFORM" "true");
    destruct (envIs w "TERRAWRAP_NO_CLEANUP" "true");
    destruct (remove w f);
    destruct (run w ("terraform" :: args w));
    reflexivity.
Qed.

(** *** The scenario of the specification, and variations of its world *)

Definition projRules : list JsVal :=
  [Examples.rule "sub" "arn:aws:iam::111:role/x"].

Definition projRole : JsVal := JStr "arn:aws:iam::111:role/x".

Definition projContent : string :=
  generatedContent (JStr "arn:aws:iam::111:role/state") (JStr "eu-west-1")
    (JStr "tfstate") (JStr "tflock") "sub" projRole.

Definition projFile : string := "/tmp/proj/sub/00_generated.tf".

(** [projWorld] with the environment [vars]. *)
Definition projWorldWith (vars : list (string * string)) : World :=
  Examples.world ["plan"; "-chdir=/tmp/proj/sub"] "/home/u" vars
    [("/tmp/proj/wrapper-config.yml", inr "proj.yml")]
    [("proj.yml", Examples.document projRules)]
    (mkStatus 0 None).

(** [projWorld] where the generated file is gone when the script wants to
    remove it. *)
Definition goneWorld : World :=
  {| args := args Examples.projWorld;
     cwd := cwd Examples.projWorld;
     env := env Examples.projWorld;
     readTextFile := readTextFile Examples.projWorld;
     parseYml := parseYml Examples.projWorld;
     writeTextFile := fun _ _ => None;
     remove := fun _ => Some Examples.notFound;
     run := fun _ => inr (mkStatus 0 None) |}.

(** X18.  The generated file lies directly in the working directory: its
    path is the working directory, a slash and [00_generated.tf], and the
    directory of that path is the working directory again. *)
Theorem generatedFile_in_working_directory config segs :
  workingDir config = absPath segs ->
  forallb segmentOk segs = true ->
  generatedFile config = absPath (segs ++ ["00_generated.tf"])
  /\ Path.dirname (generatedFile config) = workingDir config.
Proof.
  intros Hwd Hok. unfold generatedFile. rewrite Hwd.
  rewrite join_absPath by (assumption || reflexivity).
  split; [reflexivity|]. now apply dirname_snoc.
Qed.

Lemma generatedFile_in_working_directory_witness :
  generatedFile (Examples.projConfig projRules) = projFile
  /\ Path.dirname (generatedFile (Examples.projConfig projRules))
     = "/tmp/proj/sub".
Proof.
  exact (generatedFile_in_working_directory (Examples.projConfig projRules)
           ["tmp"; "proj"; "sub"] eq_refl eq_refl).
Defined.

End Lifecycle.

(* ===================================================================== *)
(** * What the script does to the outside *)
(* ===================================================================== *)

Module Observation.
Import Js Terrawrap Loader Runner Lifecycle.

(** ** Composition of traces *)

Lemma trace_bind {A B} (m : IO A) (f : A -> IO B) :
  trace (bind m f)
  = match result m with
    | Ret a => (trace m ++ trace (f a))%list
    | _ => trace m
    end.
Proof.
  destruct m as [t [a|e|c]]; simpl; try reflexivity. now destruct (f a).
Qed.

Lemma result_bind {A B} (m : IO A) (f : A -> IO B) :
  result (bind m f)
  = match result m with
    | Ret a => result (f a)
    | Throw e => Throw e
    | Exit c => Exit c
    end.
Proof.
  destruct m as [t [a|e|c]]; simpl; try reflexivity. now destruct (f a).
Qed.

(** Every event of [m] satisfies [P]. *)
Definition confined (P : Event -> Prop) {A} (m : IO A) : Prop :=
  Forall P (trace m).

Lemma confined_bind P {A B} (m : IO A) (f : A -> IO B) :
  confined P m ->
  (forall a, result m = Ret a -> confined P (f a)) ->
  confined P (bind m f).
Proof.
  unfold confined. intros Hm Hf. rewrite trace_bind.
  destruct (result m) as [a|e|c] eqn:R; try assumption.
  apply Forall_app. split; [assumption|now apply Hf].
Qed.

Lemma confined_nil P {A} (r : Res A) : confined P (([] : list Event), r).
Proof. constructor. Qed.

Lemma confined_log P w msg :
  (forall text, P (ConsoleLog text)) -> confined P (log w msg).
Proof.
  intros H. unfold log. destruct (envIs w "TERRAWRAP_LOG" "true").
  - constructor; [apply H|constructor].
  - constructor.
Qed.

Lemma confined_panic P {A} msg :
  P (ConsoleError msg) -> confined P (@panic A msg).
Proof. intros H. constructor; [exact H|constructor]. Qed.

(** ** What the script touches *)

(** The events the script may perform from the working directory [wd]:
    reading a candidate of [wd], writing or removing [00_generated.tf] in
    [wd], starting [terraform] with the arguments of the process, and
    printing. *)
Definition touches (w : World) (wd : string) (e : Event) : Prop :=
  match e with
  | ReadTextFile f => In f (allPossibleConfigLocation wd)
  | WriteTextFile f _ => f = Path.join wd "00_generated.tf"
  | Remove f => f = Path.join wd "00_generated.tf"
  | Run cmd => cmd = "terraform" :: args w
  | ConsoleError _ => True
  | ConsoleLog _ => True
  end.

Lemma loadConfigFrom_cons w wd f rest :
  loadConfigFrom w wd (f :: rest)
  = (emit (ReadTextFile f) ;;
     match tryReadParse w f with
     | inl e =>
         if isNotFound e then loadConfigFrom w wd rest
         else panic ("File: " ++ f ++ nl ++ errorText e)
     | inr parsed =>
         (if (0 <? List.length (validationErrors parsed))%nat
          then panic ("Config error: " ++ f ++ nl
                        ++ String.concat nl (validationErrors parsed))
          else ret tt) ;;
         ret (Some
                {| file := f;
                   workingDir := wd;
                   key := slice (String.length (Path.dirname f) + 1) wd;
                   config := parsed |})
     end).
Proof. reflexivity. Qed.

Lemma loadConfigFrom_confined w wd l :
  incl l (allPossibleConfigLocation wd) ->
  confined (touches w wd) (loadConfigFrom w wd l).
Proof.
  induction l as [|f rest IH]; intros Hincl; [constructor|].
  rewrite loadConfigFrom_cons. apply confined_bind.
  - constructor; [|constructor]. apply Hincl. now left.
  - intros _ _. destruct (tryReadParse w f) as [e|parsed].
    + destruct (isNotFound e).
      * apply IH. intros x Hx. apply Hincl. now right.
      * now apply confined_panic.
    + apply confined_bind; [|intros; constructor].
      destruct (0 <? List.length (validationErrors parsed))%nat;
        [now apply confined_panic|constructor].
Qed.

Lemma loadConfigFrom_workingDir w wd l :
  forall config,
    result (loadConfigFrom w wd l) = Ret (Some config) ->
    workingDir config = wd.
Proof.
  induction l as [|f rest IH]; intros config; [discriminate|].
  rewrite loadConfigFrom_cons, result_bind. simpl result.
  destruct (tryReadParse w f) as [e|parsed].
  - destruct (isNotFound e); [apply IH|discriminate].
  - rewrite result_bind.
    destruct (0 <? List.length (validationErrors parsed))%nat;
      [discriminate|].
    simpl. intros H. injection H as <-. reflexivity.
Qed.

Lemma executionRole_confined P config :
  (forall msg, P (ConsoleError msg)) -> confined P (executionRole config).
Proof.
  intros HP. unfold executionRole, get, iterate.
  apply confined_bind.
  - destruct (member (Terrawrap.config config) "execution"); constructor.
  - intros execution _. apply confined_bind.
    + destruct execution; constructor.
    + intros items _. apply confined_bind; [|intros; constructor].
      destruct (negb _); [apply confined_panic; apply HP|constructor].
Qed.

Lemma renderContent_confined P config role :
  confined P (renderContent config role).
Proof.
  unfold renderContent, get.
  repeat (apply confined_bind;
          [match goal with
           | |- confined _ (match ?x with _ => _ end) => destruct x
           end; constructor
          |intros ? _]).
  constructor.
Qed.

Lemma exitWithTerraform_confined w wd f content :
  f = Path.join wd "00_generated.tf" ->
  confined (touches w wd)
    (exitWithTerraform w (Some (writeHook w f content))
       (Some (cleanupHook w f))).
Proof.
  intros Hf. rewrite exitWithTerraform_hooks. unfold confined.
  rewrite trace_pair. constructor; [exact Hf|].
  apply Forall_app. split.
  - destruct (writeTextFile w f content); [constructor|].
    destruct (envIs w "TERRAWRAP_NO_TERRAFORM" "true"); constructor;
      [reflexivity|constructor].
  - destruct (envIs w "TERRAWRAP_NO_CLEANUP" "true"); constructor;
      [exact Hf|constructor].
Qed.

Lemma withConfig_confined w wd config :
  workingDir config = wd -> confined (touches w wd) (withConfig w config).
Proof.
  intros Hwd. unfold withConfig.
  apply confined_bind; [now apply confined_log|intros _ _].
  apply confined_bind; [now apply confined_log|intros _ _].
  apply confined_bind; [now apply confined_log|intros _ _].
  apply confined_bind.
  { destruct (negb _); [now apply confined_panic|constructor]. }
  intros _ _. apply confined_bind; [now apply executionRole_confined|].
  intros role _. apply confined_bind; [now apply confined_log|intros _ _].
  apply confined_bind; [apply renderContent_confined|].
  intros content _. apply confined_bind; [now apply confined_log|intros _ _].
  apply exitWithTerraform_confined. unfold generatedFile. now rewrite Hwd.
Qed.

(** X19.  Once the working directory [wd] is known, every read of the script
    is a read of a candidate of [wd], every write and every removal is that
    of [00_generated.tf] in [wd], and the only command started is
    [terraform] followed by the arguments of the process, unchanged. *)
Theorem main_touches_only w wd :
  workingDirInit w = ([], Ret wd) ->
  Forall (touches w wd) (trace (main w)).
Proof.
  intros Hwd. unfold main. rewrite Hwd.
  change ([], Ret wd) with (@ret string wd). rewrite bind_ret_l.
  apply confined_bind.
  - apply loadConfigFrom_confined. apply incl_refl.
  - intros [config|] Hfound.
    + apply withConfig_confined.
      exact (loadConfigFrom_workingDir w wd _ config Hfound).
    + apply confined_bind; [now apply confined_log|intros _ _].
      unfold exitWithTerraform. rewrite terraform_no_hooks.
      destruct (envIs w "TERRAWRAP_NO_TERRAFORM" "true"); [constructor|].
      destruct (run w ("terraform" :: args w)); simpl;
        (constructor; [reflexivity|constructor]).
Qed.

Lemma main_touches_only_witness :
  Forall (touches Examples.projWorld "/tmp/proj/sub")
    (trace (main Examples.projWorld)).
Proof.
  exact (main_touches_only Examples.projWorld "/tmp/proj/sub" eq_refl).
Defined.

(** ** Logging *)

Definition isLog (e : Event) : bool :=
  match e with
  | ConsoleLog _ => true
  | _ => false
  end.

(** A trace without its log lines. *)
Definition silent (t : list Event) : list Event :=
  filter (fun e => negb (isLog e)) t.

(** The world [w] without the variable [TERRAWRAP_LOG]. *)
Definition quiet (w : World) : World :=
  {| args := args w;
     cwd := cwd w;
     env := fun name =>
       if String.eqb name "TERRAWRAP_LOG" then None else env w name;
     readTextFile := readTextFile w;
     parseYml := parseYml w;
     writeTextFile := writeTextFile w;
     remove := remove w;
     run := run w |}.

(** [m'] ends as [m] does and performs the events of [m] that are not log
    lines. *)
Definition sameButLogs {A} (m m' : IO A) : Prop :=
  result m = result m' /\ silent (trace m) = trace m'.

Definition noLog (e : Event) : Prop := isLog e = false.

Lemma silent_noLog t : Forall noLog t -> silent t = t.
Proof.
  induction 1 as [|e t He _ IH]; [reflexivity|].
  unfold silent in *. simpl. unfold noLog in He. now rewrite He, IH.
Qed.

Lemma sameButLogs_same {A} (m : IO A) : confined noLog m -> sameButLogs m m.
Proof. intros H. split; [reflexivity|now apply silent_noLog]. Qed.

Lemma sameButLogs_bind {A B} (m m' : IO A) (f f' : A -> IO B) :
  sameButLogs m m' ->
  (forall a, sameButLogs (f a) (f' a)) ->
  sameButLogs (bind m f) (bind m' f').
Proof.
  intros [Hr Ht] Hf. unfold sameButLogs.
  rewrite !result_bind, !trace_bind, <- Hr.
  destruct (result m) as [a|e|c]; try (split; [reflexivity|exact Ht]).
  destruct (Hf a) as [Hfr Hft]. split; [exact Hfr|].
  unfold silent in *. now rewrite filter_app, Ht, Hft.
Qed.

Lemma sameButLogs_log w msg : sameButLogs (log w msg) (log (quiet w) msg).
Proof.
  change (log (quiet w) msg) with (@ret unit tt). unfold log.
  destruct (envIs w "TERRAWRAP_LOG" "true"); split; reflexivity.
Qed.

Lemma chdirLoop_noLog n :
  forall argv cwd,
    List.length argv <= n -> confined noLog (chdirLoop argv cwd).
Proof.
  assert (Hp : forall msg, confined noLog (@panic (option string) msg))
    by (intros msg; now apply confined_panic).
  induction n as [|n IH]; intros argv cwd Hlen.
  - destruct argv; [constructor|simpl in Hlen; lia].
  - destruct argv as [|arg rest]; [constructor|].
    simpl in Hlen. cbn [chdirLoop].
    destruct (chdirMatch arg) as [[v|]|]; [| |apply IH; lia].
    + destruct cwd; [apply Hp|].
      destruct (isValidString (JStr v)); [apply IH; lia|apply Hp].
    + destruct cwd; [apply Hp|]. destruct rest as [|v rest']; [apply Hp|].
      simpl in Hlen.
      destruct (isValidString (JStr v)); [apply IH; lia|apply Hp].
Qed.

Lemma workingDirInit_noLog w : confined noLog (workingDirInit w).
Proof.
  unfold workingDirInit. apply confined_bind.
  - now apply (chdirLoop_noLog (List.length (args w))).
  - intros; constructor.
Qed.

Lemma loadConfigFrom_noLog w wd l : confined noLog (loadConfigFrom w wd l).
Proof.
  induction l as [|f rest IH]; [constructor|].
  rewrite loadConfigFrom_cons. apply confined_bind.
  - constructor; [reflexivity|constructor].
  - intros _ _. destruct (tryReadParse w f) as [e|parsed].
    + destruct (isNotFound e); [exact IH|now apply confined_panic].
    + apply confined_bind; [|intros; constructor].
      destruct (0 <? List.length (validationErrors parsed))%nat;
        [now apply confined_panic|constructor].
Qed.

Lemma loadConfigFrom_quiet w wd l :
  loadConfigFrom (quiet w) wd l = loadConfigFrom w wd l.
Proof.
  induction l as [|f rest IH]; [reflexivity|].
  rewrite !loadConfigFrom_cons, IH. reflexivity.
Qed.

Lemma exitWithTerraform_noLog w f content :
  confined noLog
    (exitWithTerraform w (Some (writeHook w f content))
       (Some (cleanupHook w f))).
Proof.
  rewrite exitWithTerraform_hooks. unfold confined. rewrite trace_pair.
  constructor; [reflexivity|]. apply Forall_app. split.
  - destruct (writeTextFile w f content); [constructor|].
    destruct (envIs w "TERRAWRAP_NO_TERRAFORM" "true"); constructor;
      [reflexivity|constructor].
  - destruct (envIs w "TERRAWRAP_NO_CLEANUP" "true"); constructor;
      [reflexivity|constructor].
Qed.

Lemma exitWithTerraform_bare_noLog w :
  confined noLog (exitWithTerraform w None None).
Proof.
  unfold exitWithTerraform. rewrite terraform_no_hooks.
  destruct (envIs w "TERRAWRAP_NO_TERRAFORM" "true"); [constructor|].
  destruct (run w ("terraform" :: args w)); simpl;
    (constructor; [reflexivity|constructor]).
Qed.

Lemma withConfig_sameButLogs w config :
  sameButLogs (withConfig w config) (withConfig (quiet w) config).
Proof.
  unfold withConfig.
  apply sameButLogs_bind; [apply sameButLogs_log|intros _].
  apply sameButLogs_bind; [apply sameButLogs_log|intros _].
  apply sameButLogs_bind; [apply sameButLogs_log|intros _].
  apply sameButLogs_bind.
  { apply sameButLogs_same.
    destruct (negb _); [now apply confined_panic|constructor]. }
  intros _. apply sameButLogs_bind.
  { apply sameButLogs_same. now apply executionRole_confined. }
  intros role. apply sameButLogs_bind; [apply sameButLogs_log|intros _].
  apply sameButLogs_bind.
  { apply sameButLogs_same. apply renderContent_confined. }
  intros content. apply sameButLogs_bind; [apply sameButLogs_log|intros _].
  apply (sameButLogs_same
           (exitWithTerraform w
              (Some (writeHook w (generatedFile config) content))
              (Some (cleanupHook w (generatedFile config))))).
  apply exitWithTerraform_noLog.
Qed.

(** X20.  The variable [TERRAWRAP_LOG] changes nothing but the log lines:
    without it the script ends the same way and performs the same events in
    the same order, the log lines left out. *)
Theorem logging_changes_only_log_lines w :
  result (main w) = result (main (quiet w))
  /\ silent (trace (main w)) = trace (main (quiet w)).
Proof.
  change (sameButLogs (main w) (main (quiet w))). unfold main.
  apply sameButLogs_bind.
  { apply (sameButLogs_same (workingDirInit w)). apply workingDirInit_noLog. }
  intros wd. apply sameButLogs_bind.
  { unfold loadConfig. rewrite loadConfigFrom_quiet.
    apply sameButLogs_same. apply loadConfigFrom_noLog. }
  intros [config|].
  - apply withConfig_sameButLogs.
  - apply sameButLogs_bind; [apply sameButLogs_log|intros _].
    apply (sameButLogs_same (exitWithTerraform w None None)).
    apply exitWithTerraform_bare_noLog.
Qed.

(** ** Error messages *)

Definition noError (e : Event) : Prop :=
  match e with
  | ConsoleError _ => False
  | _ => True
  end.

(** An error message of [m] is its last event, and [m] then ends with
    status 1. *)
Definition errorIsFinal {A} (m : IO A) : Prop :=
  forall msg,
    In (ConsoleError msg) (trace m) ->
    result m = Exit 1%Z
    /\ exists front, trace m = (front ++ [ConsoleError msg])%list.

Lemma errorIsFinal_noError {A} (m : IO A) :
  confined noError m -> errorIsFinal m.
Proof.
  intros H msg Hin. unfold confined in H. rewrite Forall_forall in H.
  destruct (H _ Hin).
Qed.

Lemma errorIsFinal_panic {A} msg : errorIsFinal (@panic A msg).
Proof.
  intros msg' [H|[]]. injection H as <-. split; [reflexivity|].
  now exists [].
Qed.

Lemma errorIsFinal_bind {A B} (m : IO A) (f : A -> IO B) :
  errorIsFinal m ->
  (forall a, errorIsFinal (f a)) ->
  errorIsFinal (bind m f).
Proof.
  intros Hm Hf msg. rewrite trace_bind, result_bind.
  destruct (result m) as [a|e|c] eqn:R.
  - intros Hin. apply in_app_or in Hin. destruct Hin as [Hin|Hin].
    + destruct (Hm msg Hin) as [Hr _]. rewrite R in Hr. discriminate.
    + destruct (Hf a msg Hin) as [Hr [front Hfront]]. split; [exact Hr|].
      exists (trace m ++ front)%list. now rewrite Hfront, app_assoc.
  - intros Hin. destruct (Hm msg Hin) as [Hr _]. rewrite R in Hr.
    discriminate.
  - intros Hin. destruct (Hm msg Hin) as [Hr Hfront]. rewrite R in Hr.
    injection Hr as ->. split; [reflexivity|assumption].
Qed.

Lemma errorIsFinal_log w msg : errorIsFinal (log w msg).
Proof.
  apply errorIsFinal_noError. unfold log.
  destruct (envIs w "TERRAWRAP_LOG" "true"); repeat constructor.
Qed.

Lemma chdirLoop_errorIsFinal n :
  forall argv cwd,
    List.length argv <= n -> errorIsFinal (chdirLoop argv cwd).
Proof.
  assert (Hp : forall msg, errorIsFinal (@panic (option string) msg))
    by (intros msg; apply errorIsFinal_panic).
  assert (Hr : forall c, errorIsFinal (@ret (option string) c))
    by (intros c msg []).
  induction n as [|n IH]; intros argv cwd Hlen.
  - destruct argv; [apply Hr|simpl in Hlen; lia].
  - destruct argv as [|arg rest]; [apply Hr|].
    simpl in Hlen. cbn [chdirLoop].
    destruct (chdirMatch arg) as [[v|]|]; [| |apply IH; lia].
    + destruct cwd; [apply Hp|].
      destruct (isValidString (JStr v)); [apply IH; lia|apply Hp].
    + destruct cwd; [apply Hp|]. destruct rest as [|v rest']; [apply Hp|].
      simpl in Hlen.
      destruct (isValidString (JStr v)); [apply IH; lia|apply Hp].
Qed.

Lemma loadConfigFrom_errorIsFinal w wd l :
  errorIsFinal (loadConfigFrom w wd l).
Proof.
  induction l as [|f rest IH]; [intros msg []|].
  rewrite loadConfigFrom_cons. apply errorIsFinal_bind.
  - apply errorIsFinal_noError. repeat constructor.
  - intros _. destruct (tryReadParse w f) as [e|parsed].
    + destruct (isNotFound e); [exact IH|apply errorIsFinal_panic].
    + apply errorIsFinal_bind; [|intros _ msg []].
      destruct (0 <? List.length (validationErrors parsed))%nat;
        [apply errorIsFinal_panic|intros msg []].
Qed.

Lemma executionRole_errorIsFinal config : errorIsFinal (executionRole config).
Proof.
  unfold executionRole, get, iterate. apply errorIsFinal_bind.
  - destruct (member (Terrawrap.config config) "execution"); intros msg [].
  - intros execution. apply errorIsFinal_bind.
    + destruct execution; intros msg [].
    + intros items. apply errorIsFinal_bind; [|intros _ msg []].
      destruct (negb _); [apply errorIsFinal_panic|intros msg []].
Qed.

Lemma exitWithTerraform_noError w f content :
  confined noError
    (exitWithTerraform w (Some (writeHook w f content))
       (Some (cleanupHook w f))).
Proof.
  rewrite exitWithTerraform_hooks. unfold confined. rewrite trace_pair.
  constructor; [exact I|]. apply Forall_app. split.
  - destruct (writeTextFile w f content); [constructor|].
    destruct (envIs w "TERRAWRAP_NO_TERRAFORM" "true"); repeat constructor.
  - destruct (envIs w "TERRAWRAP_NO_CLEANUP" "true"); repeat constructor.
Qed.

Lemma withConfig_errorIsFinal w config : errorIsFinal (withConfig w config).
Proof.
  unfold withConfig.
  apply errorIsFinal_bind; [apply errorIsFinal_log|intros _].
  apply errorIsFinal_bind; [apply errorIsFinal_log|intros _].
  apply errorIsFinal_bind; [apply errorIsFinal_log|intros _].
  apply errorIsFinal_bind.
  { destruct (negb _); [apply errorIsFinal_panic|intros msg []]. }
  intros _. apply errorIsFinal_bind; [apply executionRole_errorIsFinal|].
  intros role. apply errorIsFinal_bind; [apply errorIsFinal_log|intros _].
  apply errorIsFinal_bind.
  { apply errorIsFinal_noError. apply renderContent_confined. }
  intros content. apply errorIsFinal_bind; [apply errorIsFinal_log|intros _].
  apply errorIsFinal_noError. apply exitWithTerraform_noError.
Qed.

(** X21.  Every message that the script prints on the error stream is its
    last event, and the script then exits with status 1: nothing is read,
    written, removed or started after an error message. *)
Theorem error_message_is_final w msg :
  In (ConsoleError msg) (trace (main w)) ->
  result (main w) = Exit 1%Z
  /\ exists front, trace (main w) = (front ++ [ConsoleError msg])%list.
Proof.
  revert msg. change (errorIsFinal (main w)). unfold main.
  apply errorIsFinal_bind.
  { unfold workingDirInit. apply errorIsFinal_bind.
    - now apply (chdirLoop_errorIsFinal (List.length (args w))).
    - intros chdir msg []. }
  intros wd. apply errorIsFinal_bind; [apply loadConfigFrom_errorIsFinal|].
  intros [config|].
  - apply withConfig_errorIsFinal.
  - apply errorIsFinal_bind; [apply errorIsFinal_log|intros _].
    apply errorIsFinal_noError. unfold exitWithTerraform.
    rewrite terraform_no_hooks.
    destruct (envIs w "TERRAWRAP_NO_TERRAFORM" "true"); [constructor|].
    destruct (run w ("terraform" :: args w)); simpl; repeat constructor.
Qed.

(** The broken document of [brokenWorld]. *)
Lemma error_message_is_final_witness :
  result (main Examples.brokenWorld) = Exit 1%Z
  /\ exists front,
       trace (main Examples.brokenWorld)
       = (front
          ++ [ConsoleError
                ("Config error: /srv/app/wrapper-config.yml" ++ nl
                   ++ invalid ".s3_backend.region" ++ nl
                   ++ invalid ".s3_backend.bucket" ++ nl
                   ++ invalid ".execution")])%list.
Proof.
  apply (error_message_is_final Examples.brokenWorld).
  right. left. reflexivity.
Defined.

End Observation.

(* ===================================================================== *)
(** * Runs that reach the hooks *)
(* ===================================================================== *)

Module Reach.
Import Js Terrawrap Loader Runner Lifecycle Observation.

(** What the script does before the hooks when nothing goes wrong: it
    reads candidates and prints log lines. *)
Definition preparation (e : Event) : Prop :=
  match e with
  | ReadTextFile _ => True
  | ConsoleLog _ => True
  | _ => False
  end.

(** Neither a write nor a removal. *)
Definition noHook (e : Event) : Prop :=
  match e with
  | WriteTextFile _ _ => False
  | Remove _ => False
  | _ => True
  end.

(** [m] performs no write and no removal, and when it returns it has only
    read and logged. *)
Definition prepares {A} (m : IO A) : Prop :=
  confined noHook m /\ (forall a, result m = Ret a -> confined preparation m).

(** The end of the script: [terraform] between the two hooks. *)
Definition hooksRun (w : World) (f content : string) : IO unit :=
  exitWithTerraform w (Some (writeHook w f content)) (Some (cleanupHook w f)).

(** [m] is some preparation followed by [hooksRun]. *)
Definition reachesHooks (w : World) (f content : string) (m : IO unit) : Prop :=
  exists front,
    Forall preparation front
    /\ m = ((front ++ trace (hooksRun w f content))%list,
            result (hooksRun w f content)).

Definition shape (w : World) (m : IO unit) : Prop :=
  confined noHook m \/ exists f content, reachesHooks w f content m.

Lemma prepares_bind {A B} (m : IO A) (f : A -> IO B) :
  prepares m -> (forall a, prepares (f a)) -> prepares (bind m f).
Proof.
  intros [Hm1 Hm2] Hf. split.
  - apply confined_bind; [exact Hm1|]. intros a _. apply (Hf a).
  - intros b. unfold confined. rewrite result_bind, trace_bind.
    destruct (result m) as [a|e|c] eqn:R; try discriminate.
    intros Hb. apply Forall_app. split.
    + exact (Hm2 a eq_refl).
    + exact (proj2 (Hf a) b Hb).
Qed.

Lemma prepares_silent {A} (r : Res A) : prepares (([] : list Event), r).
Proof. split; [constructor|intros; constructor]. Qed.

Lemma prepares_panic {A} msg : prepares (@panic A msg).
Proof. split; [repeat constructor|discriminate]. Qed.

Lemma prepares_log w msg : prepares (log w msg).
Proof.
  unfold log. destruct (envIs w "TERRAWRAP_LOG" "true");
    split; intros; repeat constructor.
Qed.

Lemma chdirLoop_prepares n :
  forall argv cwd, List.length argv <= n -> prepares (chdirLoop argv cwd).
Proof.
  assert (Hp : forall msg, prepares (@panic (option string) msg))
    by (intros msg; apply prepares_panic).
  induction n as [|n IH]; intros argv cwd Hlen.
  - destruct argv; [apply prepares_silent|simpl in Hlen; lia].
  - destruct argv as [|arg rest]; [apply prepares_silent|].
    simpl in Hlen. cbn [chdirLoop].
    destruct (chdirMatch arg) as [[v|]|]; [| |apply IH; lia].
    + destruct cwd; [apply Hp|].
      destruct (isValidString (JStr v)); [apply IH; lia|apply Hp].
    + destruct cwd; [apply Hp|]. destruct rest as [|v rest']; [apply Hp|].
      simpl in Hlen.
      destruct (isValidString (JStr v)); [apply IH; lia|apply Hp].
Qed.

Lemma loadConfigFrom_prepares w wd l : prepares (loadConfigFrom w wd l).
Proof.
  induction l as [|f rest IH]; [apply prepares_silent|].
  rewrite loadConfigFrom_cons. apply prepares_bind.
  - split; intros; repeat constructor.
  - intros _. destruct (tryReadParse w f) as [e|parsed].
    + destruct (isNotFound e); [exact IH|apply prepares_panic].
    + apply prepares_bind; [|intros; apply prepares_silent].
      destruct (0 <? List.length (validationErrors parsed))%nat;
        [apply prepares_panic|apply prepares_silent].
Qed.

Lemma executionRole_prepares config : prepares (executionRole config).
Proof.
  unfold executionRole, get, iterate. apply prepares_bind.
  - destruct (member (Terrawrap.config config) "execution");
      apply prepares_silent.
  - intros execution. apply prepares_bind.
    + destruct execution; apply prepares_silent.
    + intros items. apply prepares_bind; [|intros; apply prepares_silent].
      destruct (negb _); [apply prepares_panic|apply prepares_silent].
Qed.

Lemma renderContent_prepares config role : prepares (renderContent config role).
Proof.
  split; [apply renderContent_confined|intros; apply renderContent_confined].
Qed.

Lemma shape_bind w {A} (m : IO A) (f : A -> IO unit) :
  prepares m -> (forall a, shape w (f a)) -> shape w (bind m f).
Proof.
  intros [Hm1 Hm2] Hf.
  destruct (result m) as [a|e|c] eqn:R.
  - destruct (Hf a) as [Hleft|(file & content & front & Hfront & E)].
    + left. apply confined_bind; [exact Hm1|].
      intros a' R'. rewrite R in R'. injection R' as <-. exact Hleft.
    + right. exists file, content, (trace m ++ front)%list. split.
      * apply Forall_app. split; [exact (Hm2 a eq_refl)|exact Hfront].
      * destruct m as [t r]. unfold result in R. simpl in R. subst r.
        simpl. rewrite E. now rewrite app_assoc.
  - left. unfold confined. rewrite trace_bind, R. exact Hm1.
  - left. unfold confined. rewrite trace_bind, R. exact Hm1.
Qed.

Lemma withConfig_shape w config : shape w (withConfig w config).
Proof.
  unfold withConfig.
  apply shape_bind; [apply prepares_log|intros _].
  apply shape_bind; [apply prepares_log|intros _].
  apply shape_bind; [apply prepares_log|intros _].
  apply shape_bind.
  { destruct (negb _); [apply prepares_panic|apply prepares_silent]. }
  intros _. apply shape_bind; [apply executionRole_prepares|].
  intros role. apply shape_bind; [apply prepares_log|intros _].
  apply shape_bind; [apply renderContent_prepares|].
  intros content. apply shape_bind; [apply prepares_log|intros _].
  right. exists (generatedFile config), content, []. split; [constructor|].
  unfold hooksRun.
  now destruct (exitWithTerraform w
                  (Some (writeHook w (generatedFile config) content))
                  (Some (cleanupHook w (generatedFile config)))).
Qed.

Lemma main_shape w : shape w (main w).
Proof.
  unfold main. apply shape_bind.
  { unfold workingDirInit. apply prepares_bind.
    - now apply (chdirLoop_prepares (List.length (args w))).
    - intros; apply prepares_silent. }
  intros wd. apply shape_bind; [apply loadConfigFrom_prepares|].
  intros [config|]; [apply withConfig_shape|].
  apply shape_bind; [apply prepares_log|intros _].
  left. unfold exitWithTerraform. rewrite terraform_no_hooks.
  destruct (envIs w "TERRAWRAP_NO_TERRAFORM" "true"); [constructor|].
  destruct (run w ("terraform" :: args w)); simpl; repeat constructor.
Qed.

Lemma hooksRun_eq w f content :
  hooksRun w f content
  = ((WriteTextFile f content
        :: match writeTextFile w f content with
           | Some _ => []
           | None =>
               if envIs w "TERRAWRAP_NO_TERRAFORM" "true" then []
               else [Run ("terraform" :: args w)]
           end
        ++ (if envIs w "TERRAWRAP_NO_CLEANUP" "true" then [] else [Remove f]))%list,
     match (if envIs w "TERRAWRAP_NO_CLEANUP" "true" then None
            else remove w f) with
     | Some e' => Throw e'
     | None =>
         match writeTextFile w f content with
         | Some e => Throw e
         | None =>
             if envIs w "TERRAWRAP_NO_TERRAFORM" "true" then Exit 0%Z
             else match run w ("terraform" :: args w) with
                  | inl e => Throw e
                  | inr status => Exit (statusCode status)
                  end
         end
     end).
Proof. apply exitWithTerraform_hooks. Qed.

(** A run whose trace holds a write is a preparation followed by the hooks
    around that very write. *)
Lemma reached_by_write w f content :
  In (WriteTextFile f content) (trace (main w)) ->
  reachesHooks w f content (main w).
Proof.
  intros Hin.
  destruct (main_shape w) as [Hleft|(f' & c' & front & Hfront & E)].
  - unfold confined in Hleft. rewrite Forall_forall in Hleft.
    destruct (Hleft _ Hin).
  - assert (Hsame : f' = f /\ c' = content).
    { rewrite E, trace_pair in Hin. apply in_app_or in Hin.
      destruct Hin as [Hin|Hin].
      - rewrite Forall_forall in Hfront. destruct (Hfront _ Hin).
      - rewrite hooksRun_eq, trace_pair in Hin.
        destruct Hin as [Hin|Hin]; [injection Hin as -> ->; now split|].
        apply in_app_or in Hin. exfalso. destruct Hin as [Hin|Hin].
        + destruct (writeTextFile w f' c'); [contradiction|].
          destruct (envIs w "TERRAWRAP_NO_TERRAFORM" "true");
            [contradiction|].
          destruct Hin as [Hin|[]]. discriminate.
        + destruct (envIs w "TERRAWRAP_NO_CLEANUP" "true"); [contradiction|].
          destruct Hin as [Hin|[]]. discriminate. }
    destruct Hsame as [-> ->]. now exists front.
Qed.

(** A run whose trace holds a removal has reached the hooks with cleanup
    on, and the removal is that of the file written. *)
Lemma reached_by_remove w f :
  In (Remove f) (trace (main w)) ->
  envIs w "TERRAWRAP_NO_CLEANUP" "true" = false
  /\ exists content, reachesHooks w f content (main w).
Proof.
  intros Hin.
  destruct (main_shape w) as [Hleft|(f' & c' & front & Hfront & E)].
  - unfold confined in Hleft. rewrite Forall_forall in Hleft.
    destruct (Hleft _ Hin).
  - assert (Hsame : envIs w "TERRAWRAP_NO_CLEANUP" "true" = false /\ f' = f).
    { rewrite E, trace_pair in Hin. apply in_app_or in Hin.
      destruct Hin as [Hin|Hin].
      - rewrite Forall_forall in Hfront. destruct (Hfront _ Hin).
      - rewrite hooksRun_eq, trace_pair in Hin.
        destruct Hin as [Hin|Hin]; [discriminate|].
        apply in_app_or in Hin. destruct Hin as [Hin|Hin].
        + exfalso. destruct (writeTextFile w f' c'); [contradiction|].
          destruct (envIs w "TERRAWRAP_NO_TERRAFORM" "true");
            [contradiction|].
          destruct Hin as [Hin|[]]. discriminate.
        + destruct (envIs w "TERRAWRAP_NO_CLEANUP" "true"); [contradiction|].
          destruct Hin as [Hin|[]]. injection Hin as ->. now split. }
    destruct Hsame as [Hclean ->]. split; [exact Hclean|].
    exists c'. now exists front.
Qed.

(** X13.  The normal run.  In every run that writes the generated file,
    where the write succeeds, the override that suppresses the subprocess
    is not set, the subprocess ends with a status, and the removal succeeds
    or is suppressed: the script exits with the code of the subprocess, or
    with 1 when a signal ended it; and its events are reads and log lines,
    then the write, then the start of [terraform] with the arguments of the
    process as they are, then the removal unless the override keeps the
    file. *)
Theorem normal_run w f content status :
  In (WriteTextFile f content) (trace (main w)) ->
  writeTextFile w f content = None ->
  envIs w "TERRAWRAP_NO_TERRAFORM" "true" = false ->
  run w ("terraform" :: args w) = inr status ->
  envIs w "TERRAWRAP_NO_CLEANUP" "true" = true \/ remove w f = None ->
  result (main w)
  = Exit (match signal status with
          | None => code status
          | Some _ => 1%Z
          end)
  /\ exists front,
       Forall preparation front
       /\ trace (main w)
          = (front
             ++ WriteTextFile f content
             :: Run ("terraform" :: args w)
             :: (if envIs w "TERRAWRAP_NO_CLEANUP" "true" then []
                 else [Remove f]))%list.
Proof.
  intros Hin Hwrite Hrun Hstatus Hclean.
  destruct (reached_by_write w f content Hin) as (front & Hfront & E).
  rewrite E, hooksRun_eq, !result_pair, !trace_pair.
  rewrite Hwrite, Hrun, Hstatus. split.
  - destruct Hclean as [-> | ->]; [reflexivity|].
    destruct (envIs w "TERRAWRAP_NO_CLEANUP" "true"); reflexivity.
  - exists front. split; [exact Hfront|reflexivity].
Qed.

(** X14.  The dry run.  In every run that writes the generated file, where
    the write succeeds, the override that suppresses the subprocess is set,
    and the removal succeeds or is suppressed: the script exits with status
    0, and its events are reads and log lines, then the write, then the
    removal unless the override keeps the file; nothing is started. *)
Theorem dry_run w f content :
  In (WriteTextFile f content) (trace (main w)) ->
  writeTextFile w f content = None ->
  envIs w "TERRAWRAP_NO_TERRAFORM" "true" = true ->
  envIs w "TERRAWRAP_NO_CLEANUP" "true" = true \/ remove w f = None ->
  result (main w) = Exit 0%Z
  /\ exists front,
       Forall preparation front
       /\ trace (main w)
          = (front
             ++ WriteTextFile f content
             :: (if envIs w "TERRAWRAP_NO_CLEANUP" "true" then []
                 else [Remove f]))%list.
Proof.
  intros Hin Hwrite Hrun Hclean.
  destruct (reached_by_write w f content Hin) as (front & Hfront & E).
  rewrite E, hooksRun_eq, !result_pair, !trace_pair.
  rewrite Hwrite, Hrun. split.
  - destruct Hclean as [-> | ->]; [reflexivity|].
    destruct (envIs w "TERRAWRAP_NO_CLEANUP" "true"); reflexivity.
  - exists front. split; [exact Hfront|reflexivity].
Qed.

(** X15.  In every run where the write of the generated file fails, the
    subprocess is never started: the events are reads and log lines, then
    the write, then the removal unless the override keeps the file; and the
    script ends with the error of the removal if that fails too, and with
    the error of the write otherwise. *)
Theorem failed_write_starts_nothing w f content e :
  In (WriteTextFile f content) (trace (main w)) ->
  writeTextFile w f content = Some e ->
  result (main w)
  = Throw (match (if envIs w "TERRAWRAP_NO_CLEANUP" "true" then None
                  else remove w f) with
           | Some e' => e'
           | None => e
           end)
  /\ (exists front,
        Forall preparation front
        /\ trace (main w)
           = (front
              ++ WriteTextFile f content
              :: (if envIs w "TERRAWRAP_NO_CLEANUP" "true" then []
                  else [Remove f]))%list)
  /\ forall cmd, ~ In (Run cmd) (trace (main w)).
Proof.
  intros Hin Hwrite.
  destruct (reached_by_write w f content Hin) as (front & Hfront & E).
  rewrite E, hooksRun_eq, !result_pair, !trace_pair, Hwrite.
  split; [|split].
  - destruct (envIs w "TERRAWRAP_NO_CLEANUP" "true"); [reflexivity|].
    destruct (remove w f); reflexivity.
  - exists front. split; [exact Hfront|reflexivity].
  - intros cmd Hcmd. apply in_app_or in Hcmd. destruct Hcmd as [Hcmd|Hcmd].
    + rewrite Forall_forall in Hfront. destruct (Hfront _ Hcmd).
    + destruct Hcmd as [Hcmd|Hcmd]; [discriminate|]. simpl in Hcmd.
      destruct (envIs w "TERRAWRAP_NO_CLEANUP" "true"); [contradiction|].
      destruct Hcmd as [Hcmd|[]]. discriminate.
Qed.

(** X16.  In every run where the script tries to remove a file and the
    removal fails, the script ends with the error of the removal, whatever
    the write and the subprocess did: the exit code of the subprocess is
    lost. *)
Theorem failed_removal_ends_script w f e :
  In (Remove f) (trace (main w)) ->
  remove w f = Some e ->
  result (main w) = Throw e.
Proof.
  intros Hin Hremove.
  destruct (reached_by_remove w f Hin)
    as (Hclean & content & front & Hfront & E).
  rewrite E, hooksRun_eq, result_pair, Hclean, Hremove. reflexivity.
Qed.

(** X17.  With the override that keeps the generated file set, no run of
    the script removes any file. *)
Theorem no_cleanup_never_removes w :
  envIs w "TERRAWRAP_NO_CLEANUP" "true" = true ->
  forall f, ~ In (Remove f) (trace (main w)).
Proof.
  intros Hclean f Hin. destruct (reached_by_remove w f Hin) as [H _].
  rewrite Hclean in H. discriminate.
Qed.

(** *** Runs of the scenario and of its variations *)

(** [projWorld] on a disk where the generated file cannot be written. *)
Definition fullDiskWorld : World :=
  {| args := args Examples.projWorld;
     cwd := cwd Examples.projWorld;
     env := env Examples.projWorld;
     readTextFile := readTextFile Examples.projWorld;
     parseYml := parseYml Examples.projWorld;
     writeTextFile := fun _ _ => Some Examples.permissionDenied;
     remove := fun _ => None;
     run := fun _ => inr (mkStatus 0 None) |}.

Lemma normal_run_witness :
  result (main Examples.projWorld) = Exit 0%Z
  /\ exists front,
       Forall preparation front
       /\ trace (main Examples.projWorld)
          = (front
             ++ [WriteTextFile projFile projContent;
                 Run ["terraform"; "plan"; "-chdir=/tmp/proj/sub"];
                 Remove projFile])%list.
Proof.
  apply (normal_run Examples.projWorld projFile projContent (mkStatus 0 None)).
  - vm_compute. right. right. right. left. reflexivity.
  - reflexivity.
  - reflexivity.
  - reflexivity.
  - right. reflexivity.
Defined.

Lemma dry_run_witness :
  result (main (projWorldWith [("TERRAWRAP_NO_TERRAFORM", "true")])) = Exit 0%Z
  /\ exists front,
       Forall preparation front
       /\ trace (main (projWorldWith [("TERRAWRAP_NO_TERRAFORM", "true")]))
          = (front
             ++ [WriteTextFile projFile projContent; Remove projFile])%list.
Proof.
  apply (dry_run (projWorldWith [("TERRAWRAP_NO_TERRAFORM", "true")])
           projFile projContent).
  - vm_compute. right. right. right. left. reflexivity.
  - reflexivity.
  - reflexivity.
  - right. reflexivity.
Defined.

Lemma failed_write_starts_nothing_witness :
  result (main fullDiskWorld) = Throw Examples.permissionDenied
  /\ (exists front,
        Forall preparation front
        /\ trace (main fullDiskWorld)
           = (front
              ++ [WriteTextFile projFile projContent; Remove projFile])%list)
  /\ forall cmd, ~ In (Run cmd) (trace (main fullDiskWorld)).
Proof.
  apply (failed_write_starts_nothing fullDiskWorld projFile projContent
           Examples.permissionDenied).
  - vm_compute. right. right. right. left. reflexivity.
  - reflexivity.
Defined.

Lemma failed_removal_ends_script_witness :
  result (main goneWorld) = Throw Examples.notFound.
Proof.
  apply (failed_removal_ends_script goneWorld projFile Examples.notFound).
  - vm_compute. right. right. right. right. right. left. reflexivity.
  - reflexivity.
Defined.

Lemma no_cleanup_never_removes_witness :
  ~ In (Remove projFile)
      (trace (main (projWorldWith [("TERRAWRAP_NO_CLEANUP", "true")]))).
Proof.
  exact (no_cleanup_never_removes
           (projWorldWith [("TERRAWRAP_NO_CLEANUP", "true")]) eq_refl projFile).
Defined.

End Reach.
